(** * Options screener: cash-secured puts and covered calls

    A shallow embedding of [magnificent7_cash_secured_puts_roi_v6.py]: the
    weekly expiration generator, the per-ticker option analysis
    ([analyze_options]: candidate selection, premium, return on investment,
    row assembly), the list of tickers built from the text typed by the user,
    the ticker loop and the final ordering of the table.

    Modelling conventions.
    - A Python/NumPy float is a value of [float64]: NaN, an infinity, the
      negative zero, or a finite value given by the rational it denotes.
      Every arithmetic operation returns the binary64 value nearest to the
      exact result, ties to the even significand, as IEEE 754 prescribes:
      53 bits of significand, gradual underflow, overflow to an infinity,
      signed zeros.  A division of floats by zero gives an infinity or NaN,
      as on the NumPy scalars the price history and the option chain hold.
    - Python objects of dynamic type (values of the [info] dictionary, cells
      of a result row) are values of [pyval].
    - Code that can raise runs in the monad [exc]; [try_except] is the
      [try: ... except Exception: ...] statement.
    - The market data gateway (yfinance) is a parameter: a function from a
      ticker symbol to a [stock_t] snapshot.
    - A calendar date is its proleptic Gregorian ordinal, as returned by
      Python's [date.toordinal]; the text produced by
      [strftime("%Y-%m-%d")] is represented by the date it denotes.
    - One call of [analyze_options] reads the clock once for each row; these
      instants are taken to be one instant [now].  The memoisation of the
      decorator [st.cache_data] is left out: every call computes its rows. *)

From Stdlib Require Import ZArith QArith List Bool Ascii String Sorted Permutation Lia.
From Stdlib Require Import DecimalString Qabs Lqa.
From Stdlib Require DecimalPos DecimalN.
From stdpp Require Import gmap strings.

(** ** Floating-point numbers *)

(** A binary64 value; [FVal 0] is the positive zero. *)
Inductive float64 : Type :=
| FNaN
| FInf (negative : bool)
| FVal (q : Q)
| FNegZero.

Definition Qlt_bool (a b : Q) : bool := negb (Qle_bool b a).

(** Nearest integer, ties to even. *)
Definition round_half_even (q : Q) : Z :=
  let n := Qnum q in
  let d := Z.pos (Qden q) in
  let fl := (n / d)%Z in
  match (2 * (n mod d) ?= d)%Z with
  | Lt => fl
  | Gt => (fl + 1)%Z
  | Eq => if Z.even fl then fl else (fl + 1)%Z
  end.

(** [2 ^ k] for an integer [k] of either sign. *)
Definition pow2 (k : Z) : Q :=
  if (0 <=? k)%Z then inject_Z (2 ^ k) else 1 # Z.to_pos (2 ^ (- k)).

(** The integer part of the binary logarithm of [q > 0]:
    [2 ^ Qlog2 q <= q < 2 ^ (Qlog2 q + 1)]. *)
Definition Qlog2 (q : Q) : Z :=
  let e := (Z.log2 (Qnum q) - Z.log2 (Z.pos (Qden q)))%Z in
  if Qle_bool (pow2 e) q then e else (e - 1)%Z.

Definition fzero (negative : bool) : float64 :=
  if negative then FNegZero else FVal 0.

(** The exponent of the unit in the last place of the floats around [q]:
    the significand has 53 bits, and the unit is never below [2 ^ -1074]. *)
Definition ulp_exp (q : Q) : Z := Z.max (Qlog2 (Qabs q) - 52) (-1074).

(** The multiple of that unit nearest to [q], ties to the even multiple. *)
Definition nearest (q : Q) : Q :=
  inject_Z (round_half_even (q / pow2 (ulp_exp q))) * pow2 (ulp_exp q).

(** The binary64 value nearest to [q], ties to the even significand; a
    rounded magnitude of [2 ^ 1024] or more is an infinity.  A zero result,
    and an infinity, take the sign [negative], which is the sign of [q]
    whenever [q] is not zero. *)
Definition round_to (negative : bool) (q : Q) : float64 :=
  if Qeq_bool q 0 then fzero negative
  else
    let v := nearest q in
    if Qeq_bool v 0 then fzero negative
    else if Qle_bool (pow2 1024) (Qabs v) then FInf negative
    else FVal (Qred v).

Arguments round_to : simpl never.

Definition rnd (q : Q) : float64 := round_to (Qlt_bool q 0) q.

(** The float written as the decimal literal [q]. *)
Definition dbl (q : Q) : float64 := rnd q.

(** [float(z)] for an [int] within the range of the floats. *)
Definition of_int (z : Z) : float64 := rnd (inject_Z z).

(** The sign bit. *)
Definition fsign (x : float64) : bool :=
  match x with
  | FNaN => false
  | FInf s => s
  | FVal q => Qlt_bool q 0
  | FNegZero => true
  end.

(** The rational a finite value denotes. *)
Definition fval (x : float64) : Q :=
  match x with
  | FVal q => q
  | _ => 0
  end.

(** [bool(x)]: a float is falsy exactly when it is zero; NaN is truthy. *)
Definition truthy (x : float64) : bool :=
  match x with
  | FVal q => negb (Qeq_bool q 0)
  | FNegZero => false
  | _ => true
  end.

Definition fneg (x : float64) : float64 :=
  match x with
  | FNaN => FNaN
  | FInf s => FInf (negb s)
  | FVal q => if Qeq_bool q 0 then FNegZero else FVal (- q)
  | FNegZero => FVal 0
  end.

(** [x + y]: an exact sum of zero is the positive zero, unless both terms
    are negative zeros. *)
Definition fadd (x y : float64) : float64 :=
  match x, y with
  | FNaN, _ | _, FNaN => FNaN
  | FInf s, FInf t => if Bool.eqb s t then FInf s else FNaN
  | FInf s, _ | _, FInf s => FInf s
  | _, _ =>
      let q := (fval x + fval y)%Q in
      round_to (if Qeq_bool q 0 then fsign x && fsign y else Qlt_bool q 0) q
  end.

Definition fsub (x y : float64) : float64 := fadd x (fneg y).

(** [x * y]: the sign of the product is the exclusive or of the signs. *)
Definition fmul (x y : float64) : float64 :=
  match x, y with
  | FNaN, _ | _, FNaN => FNaN
  | FInf s, FInf t => FInf (xorb s t)
  | FInf s, z | z, FInf s => if truthy z then FInf (xorb s (fsign z)) else FNaN
  | _, _ => round_to (xorb (fsign x) (fsign y)) (fval x * fval y)
  end.

(** [x / y] on NumPy floats: a division by zero gives an infinity, or NaN
    for a zero dividend. *)
Definition fdiv (x y : float64) : float64 :=
  match x, y with
  | FNaN, _ | _, FNaN => FNaN
  | FInf _, FInf _ => FNaN
  | FInf s, _ => FInf (xorb s (fsign y))
  | _, FInf t => fzero (xorb (fsign x) t)
  | _, _ =>
      if truthy y then round_to (xorb (fsign x) (fsign y)) (fval x / fval y)
      else if truthy x then FInf (xorb (fsign x) (fsign y))
      else FNaN
  end.

(** [x <= y] and [x < y]; every comparison with NaN is [False], and the two
    zeros are equal. *)
Definition fle (x y : float64) : bool :=
  match x, y with
  | FNaN, _ | _, FNaN => false
  | FInf true, _ => true
  | _, FInf false => true
  | FInf false, _ => false
  | _, FInf true => false
  | _, _ => Qle_bool (fval x) (fval y)
  end.

Definition flt (x y : float64) : bool :=
  match x, y with
  | FNaN, _ | _, FNaN => false
  | FInf s, FInf t => s && negb t
  | FInf true, _ => true
  | _, FInf false => true
  | FInf false, _ => false
  | _, FInf true => false
  | _, _ => Qlt_bool (fval x) (fval y)
  end.

(** [numpy.rint]: the nearest integer, ties to even, the sign kept. *)
Definition rint (x : float64) : float64 :=
  match x with
  | FVal q => round_to (Qlt_bool q 0) (inject_Z (round_half_even q))
  | _ => x
  end.

(** [round(x, 2)] on a NumPy float: [rint(x * 100.0) / 100.0], each step
    rounded to the nearest float. *)
Definition np_round2 (x : float64) : float64 :=
  fdiv (rint (fmul x (of_int 100))) (of_int 100).

(** The nearest whole number of cents, ties to even, as an exact rational:
    the amount that the text of two decimals writes. *)
Definition round2 (x : float64) : float64 :=
  match x with
  | FVal q => FVal (round_half_even (q * 100) # 100)
  | _ => x
  end.

(** The same representation of a number: equal rationals, the same infinity,
    the negative zero, or NaN on both sides (this is not the IEEE [==], for
    which NaN differs from itself). *)
Definition feq (x y : float64) : Prop :=
  match x, y with
  | FNaN, FNaN => True
  | FInf s, FInf t => s = t
  | FVal a, FVal b => (a == b)%Q
  | FNegZero, FNegZero => True
  | _, _ => False
  end.

(** ** Number formatting *)

Definition dec (z : Z) : string := NilZero.string_of_uint (N.to_uint (Z.to_N z)).

Definition two_digits (z : Z) : string :=
  if (z <? 10)%Z then String "0" (dec z) else dec z.

Definition format_2f_Q (q : Q) : string :=
  let a := Z.abs (round_half_even (q * 100)) in
  String.append (if Qlt_bool q 0 then "-" else "")
    (String.append (dec (a / 100)) (String "." (two_digits (a mod 100)))).

(** [f"{x:.2f}"] on a float. *)
Definition format_2f (x : float64) : string :=
  match x with
  | FNaN => "nan"
  | FInf false => "inf"
  | FInf true => "-inf"
  | FVal q => format_2f_Q q
  | FNegZero => "-0.00"
  end.

(** ** Python values *)

Inductive pyval : Type :=
| VNone
| VBool (b : bool)
| VInt (z : Z)
| VFloat (x : float64)
| VStr (s : string).

(** [def fmt(x): return f"{x:.2f}" if isinstance(x, (float, int)) else x].
    [bool] is a subclass of [int]; an [int] is converted to a float before
    it is written. *)
Definition fmt (x : pyval) : pyval :=
  match x with
  | VFloat f => VStr (format_2f f)
  | VInt z => VStr (format_2f (of_int z))
  | VBool b => VStr (format_2f (of_int (if b then 1 else 0)))
  | _ => x
  end.

(** [d.get(key, default)] on a dictionary. *)
Definition dict_get (d : gmap string pyval) (key : string) (dflt : pyval) : pyval :=
  default dflt (d !! key).

(** ** Exceptions *)

Inductive exn : Type :=
| TypeError
| IndexError
| OverflowError
| ZeroDivisionError
| FetchError (what : string).

Inductive exc (A : Type) : Type :=
| Ok (a : A)
| Raise (e : exn).

Arguments Ok {A} a.
Arguments Raise {A} e.

#[global] Instance exc_ret : MRet exc := fun A a => Ok a.

#[global] Instance exc_bind : MBind exc := fun A B f m =>
  match m with
  | Ok a => f a
  | Raise e => Raise e
  end.

(** [try: body  except Exception as e: handler]. *)
Definition try_except {A : Type} (body : exc A) (handler : exn -> exc A) : exc A :=
  match body with
  | Ok a => Ok a
  | Raise e => handler e
  end.

(** [a / b] on two [int]s: the float nearest to the quotient; a quotient
    beyond the floats raises, and so does a zero divisor. *)
Definition int_truediv (a b : Z) : exc float64 :=
  if (b =? 0)%Z then Raise ZeroDivisionError
  else
    match rnd (inject_Z a / inject_Z b) with
    | FInf _ => Raise OverflowError
    | x => Ok x
    end.

Fixpoint str_repeat (s : string) (n : nat) : string :=
  match n with
  | O => EmptyString
  | S k => String.append s (str_repeat s k)
  end.

(** [v * n] for an [int] literal [n]: numbers multiply, a string is repeated,
    [None] has no product. *)
Definition py_mul_int (v : pyval) (n : Z) : exc pyval :=
  match v with
  | VFloat x => Ok (VFloat (fmul x (of_int n)))
  | VInt z => Ok (VInt (z * n))
  | VBool b => Ok (VInt ((if b then 1 else 0) * n))
  | VStr s => Ok (VStr (str_repeat s (Z.to_nat n)))
  | VNone => Raise TypeError
  end.

(** [v > n] for an [int] literal [n]: only numbers compare with an [int]. *)
Definition py_gt_int (v : pyval) (n : Z) : exc bool :=
  match v with
  | VFloat x => Ok (flt (of_int n) x)
  | VInt z => Ok (n <? z)%Z
  | VBool b => Ok (n <? (if b then 1 else 0))%Z
  | VStr _ | VNone => Raise TypeError
  end.

(** ** Dates and times *)

(** A [datetime]: the ordinal of its date and the microseconds elapsed since
    midnight, [0 <= dt_us < us_per_day]. *)
Record datetime : Type := { dt_day : Z; dt_us : Z }.

Definition us_per_day : Z := 86400000000.

Definition valid_datetime (t : datetime) : Prop :=
  (0 <= dt_us t < us_per_day)%Z.

(** [date.weekday()]: Monday is 0, Friday is 4, Sunday is 6. *)
Definition weekday (t : datetime) : Z := ((dt_day t + 6) mod 7)%Z.

(** [t + timedelta(days)]. *)
Definition add_days (t : datetime) (days : Z) : datetime :=
  {| dt_day := dt_day t + days; dt_us := dt_us t |}.

(** The text [YYYY-MM-DD] of a date, represented by the date. *)
Definition date_text : Type := Z.

(** [t.strftime("%Y-%m-%d")]: the time of day is dropped. *)
Definition strftime_ymd (t : datetime) : date_text := dt_day t.

(** [datetime.strptime(s, "%Y-%m-%d")]: midnight of that date. *)
Definition strptime_ymd (s : date_text) : datetime := {| dt_day := s; dt_us := 0 |}.

(** [(a - b).days]: a [timedelta] is normalised with a floor division, its
    [days] component is negative when [a] is earlier than [b]. *)
Definition timedelta_days (a b : datetime) : Z :=
  (((dt_day a - dt_day b) * us_per_day + (dt_us a - dt_us b)) / us_per_day)%Z.

(** [range(n)]. *)
Definition range (n : Z) : list Z := map Z.of_nat (seq 0 (Z.to_nat n)).

(** ** Expiration generator *)

Definition get_weekly_expirations (n : Z) (today : datetime) : list date_text :=
  map (fun i => strftime_ymd (add_days today ((4 - weekday today) mod 7 + i * 7)%Z))
      (range n).

(** ** Market data gateway *)

(** One row of an option chain table.  A cell the gateway has no value for
    holds NaN, as in every numeric pandas column. *)
Record quote : Type := {
  strike : float64;
  bid : float64;
  ask : float64;
  lastPrice : float64
}.

Record opt_chain_t : Type := { puts : list quote; calls : list quote }.

(** [yf.Ticker(ticker)]: the fundamentals, the [Close] column of the five-day
    price history and the option chain of an expiration; each access may
    raise. *)
Record stock_t : Type := {
  info : exc (gmap string pyval);
  history_close : exc (list float64);
  option_chain : date_text -> exc opt_chain_t
}.

(** [column.iloc[-1]]. *)
Definition iloc_last {A : Type} (column : list A) : exc A :=
  match rev column with
  | [] => Raise IndexError
  | x :: _ => Ok x
  end.

(** ** Candidate selection and return on investment *)

Definition CSP : string := "Cash Secured Put".

Definition is_csp (strategy : string) : bool := String.eqb strategy CSP.

(** The percentages offered by the select box. *)
Definition moneyness_choices : list Z := [1; 2; 3; 4; 5; 10; 15; 20; 30]%Z.

(** [round(current_price * (1 - moneyness_pct / 100), 2)] for a put, with
    [1 + moneyness_pct / 100] for a call: [moneyness_pct / 100] divides two
    [int]s, the price is a NumPy float, and so is the product that is
    rounded. *)
Definition target_strike (strategy : string) (current_price : float64)
    (moneyness_pct : Z) : exc float64 :=
  fraction ← int_truediv moneyness_pct 100;
  mret (np_round2 (if is_csp strategy
                   then fmul current_price (fsub (of_int 1) fraction)
                   else fmul current_price (fadd (of_int 1) fraction))).

Definition options_of (strategy : string) (opt_chain : opt_chain_t) : list quote :=
  if is_csp strategy then puts opt_chain else calls opt_chain.

Definition options_filtered (strategy : string) (options : list quote)
    (target : float64) : list quote :=
  if is_csp strategy
  then List.filter (fun q => fle (strike q) target) options
  else List.filter (fun q => fle target (strike q)) options.

(** [options_filtered.iloc[-1]] for a put, [options_filtered.iloc[0]] for a
    call; [None] stands for the empty table, on which the loop continues. *)
Definition selected (strategy : string) (filtered : list quote) : option quote :=
  if is_csp strategy then head (rev filtered) else head filtered.

Definition premium_of (sel : quote) : float64 :=
  if truthy (bid sel) && truthy (ask sel)
  then fdiv (fadd (bid sel) (ask sel)) (of_int 2)
  else lastPrice sel.

Definition days_to_exp_of (expiration : date_text) (now : datetime) : Z :=
  timedelta_days (strptime_ymd expiration) now.

Definition abs_roi_of (premium strike_price : float64) : float64 :=
  fmul (fdiv premium strike_price) (of_int 100).

Definition ann_roi_of (abs_roi : float64) (days_to_exp : Z) : pyval :=
  if (days_to_exp >? 0)%Z
  then VFloat (fmul (fdiv abs_roi (of_int days_to_exp)) (of_int 365))
  else VInt 0.

(** ** Result rows *)

(** The dictionary built for one (ticker, expiration) pair; one field per
    key, in the order of the source. *)
Record row : Type := {
  Ticker : string;
  Strategy : string;
  Current_Price : pyval;
  Strike_Price : pyval;
  Analyst_Target : pyval;
  Premium : pyval;
  Days_to_Exp : Z;
  Abs_ROI : pyval;
  Ann_ROI : pyval;
  Div_Yield : pyval;
  Next_Earnings : pyval;
  Recommendation : pyval;
  EPS_TTM : pyval;
  EPS_Trend : string;
  Overall_Score : pyval;
  Expiration : date_text;
  Sector : pyval;
  Industry : pyval
}.

(** The values computed for a selected quote before the row is built. *)
Record metrics : Type := {
  m_strike_price : float64;
  m_premium : float64;
  m_days_to_exp : Z;
  m_abs_roi : float64;
  m_ann_roi : pyval
}.

Definition compute_metrics (sel : quote) (expiration : date_text) (now : datetime)
    : metrics :=
  let strike_price := strike sel in
  let premium := premium_of sel in
  let days_to_exp := days_to_exp_of expiration now in
  let abs_roi := abs_roi_of premium strike_price in
  let ann_roi := ann_roi_of abs_roi days_to_exp in
  {| m_strike_price := strike_price; m_premium := premium;
     m_days_to_exp := days_to_exp; m_abs_roi := abs_roi; m_ann_roi := ann_roi |}.

(** The dictionary literal [row = {...}]; the product and the comparison on
    values of [info] raise on operands of the wrong type. *)
Definition make_row (ticker strategy : string) (inf : gmap string pyval)
    (current_price : float64) (expiration : date_text) (m : metrics) : exc row :=
  div_yield ← py_mul_int (dict_get inf "dividendYield" (VFloat (FVal 0))) 100;
  growing ← py_gt_int (dict_get inf "earningsQuarterlyGrowth" (VInt 0)) 0;
  mret {|
    Ticker := ticker;
    Strategy := strategy;
    Current_Price := fmt (VFloat current_price);
    Strike_Price := fmt (VFloat (m_strike_price m));
    Analyst_Target := fmt (dict_get inf "targetMeanPrice" (VFloat (FVal 0)));
    Premium := fmt (VFloat (m_premium m));
    Days_to_Exp := m_days_to_exp m;
    Abs_ROI := fmt (VFloat (m_abs_roi m));
    Ann_ROI := fmt (m_ann_roi m);
    Div_Yield := fmt div_yield;
    Next_Earnings := dict_get inf "earningsDate" (VStr "N/A");
    Recommendation := dict_get inf "recommendationKey" (VStr "N/A");
    EPS_TTM := fmt (dict_get inf "trailingEps" (VFloat (FVal 0)));
    EPS_Trend := if (growing : bool) then "Beat"%string else "Miss"%string;
    Overall_Score := fmt (dict_get inf "recommendationMean" (VFloat (FVal 0)));
    Expiration := expiration;
    Sector := dict_get inf "sector" (VStr "N/A");
    Industry := dict_get inf "industry" (VStr "N/A")
  |}.

(** ** The analysis of one ticker *)

Section Analysis.

(** The gateway [yf.Ticker] and the instant [datetime.today()] of the run. *)
Variable yf_Ticker : string -> exc stock_t.
Variable now : datetime.

Variables (strategy : string) (moneyness_pct : Z) (min_price max_price : float64).

(** The selected quote of one expiration: the body of the inner [try] down
    to [selected]; [Ok None] is the [continue] on an empty selection. *)
Definition select_candidate (stock : stock_t) (current_price : float64)
    (expiration : date_text) : exc (option quote) :=
  opt_chain ← option_chain stock expiration;
  let options := options_of strategy opt_chain in
  target ← target_strike strategy current_price moneyness_pct;
  mret (selected strategy (options_filtered strategy options target)).

(** The body of the inner [try]: the rows list after this expiration. *)
Definition expiration_body (ticker : string) (stock : stock_t)
    (inf : gmap string pyval) (current_price : float64)
    (options_data : list row) (expiration : date_text) : exc (list row) :=
  sel ← select_candidate stock current_price expiration;
  match sel with
  | None => mret options_data
  | Some sel =>
      r ← make_row ticker strategy inf current_price expiration
            (compute_metrics sel expiration now);
      mret (options_data ++ [r])
  end.

(** [for expiration in expirations: try: ... except Exception: continue]. *)
Fixpoint expirations_loop (ticker : string) (stock : stock_t)
    (inf : gmap string pyval) (current_price : float64)
    (expirations : list date_text) (options_data : list row) : exc (list row) :=
  match expirations with
  | [] => mret options_data
  | expiration :: rest =>
      options_data' ← try_except
        (expiration_body ticker stock inf current_price options_data expiration)
        (fun _ => mret options_data);
      expirations_loop ticker stock inf current_price rest options_data'
  end.

(** The body of the outer [try]. *)
Definition analyze_options_body (ticker : string) (expirations : list date_text)
    : exc (list row) :=
  stock ← yf_Ticker ticker;
  inf ← info stock;
  hist ← history_close stock;
  current_price ← iloc_last hist;
  if flt current_price min_price || flt max_price current_price
  then mret []
  else expirations_loop ticker stock inf current_price expirations [].

Definition analyze_options (ticker : string) (expirations : list date_text)
    : exc (list row) :=
  try_except (analyze_options_body ticker expirations) (fun _ => Ok []).

(** [for tkr in tickers_to_process: all_results.extend(analyze_options(...))]. *)
Fixpoint ticker_loop (tickers_to_process : list string)
    (expiration_list : list date_text) (all_results : list row) : exc (list row) :=
  match tickers_to_process with
  | [] => mret all_results
  | tkr :: rest =>
      results ← analyze_options tkr expiration_list;
      ticker_loop rest expiration_list (all_results ++ results)
  end.

End Analysis.

(** ** Ordering of the table *)

(** The cell of the column ["Ann ROI (%)"] as the sort sees it: the rows hold
    the text made by [fmt], and texts compare by code point. *)
Definition ann_roi_key (r : row) : string :=
  match Ann_ROI r with
  | VStr s => s
  | _ => EmptyString
  end.

(** Place [r] in a table sorted in descending key order, before the first row
    whose key is not greater. *)
Fixpoint insert_desc (r : row) (sorted : list row) : list row :=
  match sorted with
  | [] => [r]
  | x :: rest =>
      if String.ltb (ann_roi_key r) (ann_roi_key x)
      then x :: insert_desc r rest
      else r :: x :: rest
  end.

(** [df.sort_values(by="Ann ROI (%)", ascending=False)]. *)
Definition sort_values_desc (df : list row) : list row :=
  fold_right insert_desc [] df.

(** [if all_results: ... sort ... else: st.warning(...)]: the table shown, or
    [None] for the warning. *)
Definition display (all_results : list row) : option (list row) :=
  match all_results with
  | [] => None
  | _ => Some (sort_values_desc all_results)
  end.

(** ** The run of the script *)

(** The top level of the script: eight weekly expirations from today, the
    loop over the tickers, then the table shown. *)
Definition run (yf_Ticker : string -> exc stock_t) (today now : datetime)
    (strategy : string) (moneyness_pct : Z) (min_price max_price : float64)
    (tickers_to_process : list string) : exc (option (list row)) :=
  let expiration_list := get_weekly_expirations 8 today in
  all_results ← ticker_loop yf_Ticker now strategy moneyness_pct min_price max_price
                   tickers_to_process expiration_list [];
  mret (display all_results).

(** ** The ticker list *)

(** Ticker text is modelled over the 7-bit ASCII alphabet, on which
    [str.strip], [str.upper] and the order of [sorted] are the functions
    below; characters beyond it do not occur in ticker symbols. *)

(** [c.isspace()]: tab, line feed, vertical tab, form feed, carriage return,
    the four separators 28 to 31, and the space. *)
Definition is_space (c : ascii) : bool :=
  let n := N_of_ascii c in
  ((9 <=? n) && (n <=? 13) || (28 <=? n) && (n <=? 32))%N.

Definition upper_char (c : ascii) : ascii :=
  let n := N_of_ascii c in
  if ((97 <=? n) && (n <=? 122))%N then ascii_of_N (n - 32) else c.

(** [s.upper()]. *)
Fixpoint upper (s : string) : string :=
  match s with
  | EmptyString => EmptyString
  | String c r => String (upper_char c) (upper r)
  end.

Fixpoint lstrip (s : string) : string :=
  match s with
  | EmptyString => EmptyString
  | String c r => if is_space c then lstrip r else s
  end.

Fixpoint rstrip (s : string) : string :=
  match s with
  | EmptyString => EmptyString
  | String c r =>
      match rstrip r with
      | EmptyString => if is_space c then EmptyString else String c EmptyString
      | r' => String c r'
      end
  end.

(** [s.strip()]. *)
Definition strip (s : string) : string := rstrip (lstrip s).

(** [s.split(sep)] for a separator of one character: never an empty list. *)
Fixpoint split (sep : ascii) (s : string) : list string :=
  match s with
  | EmptyString => [EmptyString]
  | String c r =>
      if Ascii.eqb c sep then EmptyString :: split sep r
      else match split sep r with
           | h :: t => String c h :: t
           | [] => [String c EmptyString]
           end
  end.

(** Insertion in an ascending list without duplicates. *)
Fixpoint insert_sorted (s : string) (l : list string) : list string :=
  match l with
  | [] => [s]
  | x :: r =>
      match String.compare s x with
      | Lt => s :: x :: r
      | Eq => x :: r
      | Gt => x :: insert_sorted s r
      end
  end.

(** [sorted(set(l))]: the distinct members of [l] in ascending order. *)
Definition sorted_set (l : list string) : list string :=
  fold_right insert_sorted [] l.

Definition magnificent7 : list string :=
  ["AAPL"; "MSFT"; "NVDA"; "AMZN"; "GOOGL"; "META"; "TSLA"]%string.

Definition etfs : list string := ["SPY"; "QQQ"]%string.

(** [all_stocks] after the optional [extend] with the tickers typed by the
    user; the empty text is falsy and adds nothing. *)
Definition all_stocks (additional_tickers : string) : list string :=
  let all_stocks := magnificent7 ++ etfs in
  match additional_tickers with
  | EmptyString => all_stocks
  | _ => all_stocks ++ map (fun t => upper (strip t)) (split "," additional_tickers)
  end.

Definition unique_stocks (additional_tickers : string) : list string :=
  sorted_set (all_stocks additional_tickers).

Definition tickers_list (additional_tickers : string) : list string :=
  "ALL"%string :: unique_stocks additional_tickers.

(** [unique_stocks if selected_stock == "ALL" else [selected_stock]]. *)
Definition tickers_to_process (selected_stock : string) (unique_stocks : list string)
    : list string :=
  if String.eqb selected_stock "ALL" then unique_stocks else [selected_stock].

(** The script from its inputs to the table shown. *)
Definition script (yf_Ticker : string -> exc stock_t) (today now : datetime)
    (strategy : string) (moneyness_pct : Z) (min_price max_price : float64)
    (additional_tickers selected_stock : string) : exc (option (list row)) :=
  run yf_Ticker today now strategy moneyness_pct min_price max_price
    (tickers_to_process selected_stock (unique_stocks additional_tickers)).

(** ** Sample market data *)

(** Tuesday 2026-11-03 at 15:30, and Friday 2026-11-06 at 10:00. *)
Definition tuesday_afternoon : datetime := {| dt_day := 739923; dt_us := 55800000000 |}.
Definition friday_morning : datetime := {| dt_day := 739926; dt_us := 36000000000 |}.

(** Friday 2026-12-04. *)
Definition december_4 : date_text := 739954%Z.

Definition xyz_quote (k : Z) : quote :=
  {| strike := of_int k; bid := dbl 2.00; ask := dbl 2.20; lastPrice := dbl 2.05 |}.

Definition xyz_chain : opt_chain_t :=
  {| puts := [xyz_quote 90; xyz_quote 95; xyz_quote 100];
     calls := [xyz_quote 100; xyz_quote 105; xyz_quote 110] |}.

Definition xyz_stock : stock_t :=
  {| info := Ok ∅;
     history_close := Ok [FVal 99; FVal 100];
     option_chain := fun _ => Ok xyz_chain |}.

(** A gateway that knows the ticker XYZ alone. *)
Definition xyz_gateway (ticker : string) : exc stock_t :=
  if String.eqb ticker "XYZ" then Ok xyz_stock else Raise (FetchError "no data").

(** The row of XYZ for the expiration of 2026-12-04, computed on Tuesday
    2026-11-03. *)
Definition xyz_row : row :=
  {| Ticker := "XYZ"; Strategy := CSP; Current_Price := VStr "100.00";
     Strike_Price := VStr "95.00"; Analyst_Target := VStr "0.00";
     Premium := VStr "2.10"; Days_to_Exp := 30; Abs_ROI := VStr "2.21";
     Ann_ROI := VStr "26.89"; Div_Yield := VStr "0.00";
     Next_Earnings := VStr "N/A"; Recommendation := VStr "N/A";
     EPS_TTM := VStr "0.00"; EPS_Trend := "Miss"; Overall_Score := VStr "0.00";
     Expiration := december_4; Sector := VStr "N/A"; Industry := VStr "N/A" |}.

(** A stock that pays no dividend: the fundamentals hold [None] for the
    dividend yield. *)
Definition no_dividend_info : gmap string pyval := <["dividendYield" := VNone]> ∅.

Definition no_dividend_stock : stock_t :=
  {| info := Ok no_dividend_info;
     history_close := Ok [FVal 100];
     option_chain := fun _ => Ok xyz_chain |}.

(** A stock whose latest close is missing from the price history. *)
Definition nan_stock : stock_t :=
  {| info := Ok ∅;
     history_close := Ok [FVal 100; FNaN];
     option_chain := fun _ => Ok xyz_chain |}.


(** A put whose bid is missing from the chain table. *)
Definition unbid_quote : quote :=
  {| strike := of_int 95; bid := FNaN; ask := dbl 2.20; lastPrice := dbl 2.05 |}.

Definition unbid_stock : stock_t :=
  {| info := Ok ∅;
     history_close := Ok [FVal 100];
     option_chain := fun _ => Ok {| puts := [unbid_quote]; calls := [] |} |}.

(** Two puts with the premiums 2.125 and 2.12. *)
Definition fine_quote : quote :=
  {| strike := of_int 95; bid := dbl 2.00; ask := dbl 2.25; lastPrice := dbl 2.05 |}.
Definition coarse_quote : quote :=
  {| strike := of_int 95; bid := dbl 2.00; ask := dbl 2.24; lastPrice := dbl 2.05 |}.

(** A put at the strike 50 whose bid and ask have the mean 6.8125. *)
Definition eighth_quote : quote :=
  {| strike := of_int 50; bid := dbl 6.75; ask := dbl 6.875; lastPrice := dbl 6.80 |}.

(** A quote at the strike [k], a decimal literal. *)
Definition half_quote (k : Q) : quote :=
  {| strike := dbl k; bid := dbl 1.00; ask := dbl 1.10; lastPrice := dbl 1.05 |}.

(** ** Notions used by the statements *)

Definition CC : string := "Covered Call".

(** A rational that is a finite float: an integer of less than 53 bits times
    a power of two not below [2 ^ -1074], of magnitude below [2 ^ 1024]. *)
Definition is_float (q : Q) : Prop :=
  exists z j : Z,
    (Z.abs z < 2 ^ 53)%Z /\ (-1074 <= j)%Z /\ (q == inject_Z z * pow2 j)%Q /\
    (Qabs q < pow2 1024)%Q.

(** The relation [strike a <= strike b] on quotes. *)
Definition strike_le (a b : quote) : Prop := fle (strike a) (strike b) = true.

(** An option table listed by ascending strike. *)
Definition ascending_by_strike (options : list quote) : Prop :=
  Sorted strike_le options.

(** The rows one expiration adds to the table of its ticker. *)
Definition rows_of_expiration (now : datetime) (strategy : string) (m : Z)
    (ticker : string) (stock : stock_t) (inf : gmap string pyval)
    (price : float64) (expiration : date_text) : list row :=
  match expiration_body now strategy m ticker stock inf price [] expiration with
  | Ok rows => rows
  | Raise _ => []
  end.

(** The rows one ticker adds to the results. *)
Definition rows_of_ticker (yf_Ticker : string -> exc stock_t) (now : datetime)
    (strategy : string) (m : Z) (min_price max_price : float64)
    (expirations : list date_text) (ticker : string) : list row :=
  match analyze_options yf_Ticker now strategy m min_price max_price ticker expirations with
  | Ok rows => rows
  | Raise _ => []
  end.

(** A value on which the product and the comparison of the row assembly are
    defined. *)
Definition is_number (v : pyval) : Prop :=
  match v with
  | VInt _ | VFloat _ | VBool _ => True
  | _ => False
  end.

(** A decimal digit, and a text made of decimal digits. *)
Definition is_digit (c : ascii) : bool :=
  let n := N_of_ascii c in ((48 <=? n) && (n <=? 57))%N.

Fixpoint all_digits (s : string) : bool :=
  match s with
  | EmptyString => true
  | String c r => is_digit c && all_digits r
  end.

(** The order of texts by code point. *)
Definition string_lt (s t : string) : Prop := String.compare s t = Lt.

(** * Properties *)

(** ** Rounding to the nearest float *)

Lemma Qlt_bool_iff (a b : Q) : Qlt_bool a b = true <-> (a < b)%Q.
Proof.
  unfold Qlt_bool. rewrite negb_true_iff.
  split.
  - intros H. apply Qnot_le_lt. intros Hle. apply Qle_bool_iff in Hle. congruence.
  - intros H. destruct (Qle_bool b a) eqn:E; [|reflexivity].
    apply Qle_bool_iff in E. now apply Qle_not_lt in E.
Qed.

Lemma Qlt_bool_nonneg (q : Q) : (0 <= q)%Q -> Qlt_bool q 0 = false.
Proof.
  intros Hq. unfold Qlt_bool. apply Qle_bool_iff in Hq. now rewrite Hq.
Qed.

Lemma round_half_even_nonneg (q : Q) : (0 <= q)%Q -> (0 <= round_half_even q)%Z.
Proof.
  intros Hq. unfold round_half_even.
  assert (Hn : (0 <= Qnum q)%Z).
  { unfold Qle in Hq. simpl in Hq. lia. }
  assert (Hfl : (0 <= Qnum q / Z.pos (Qden q))%Z) by (apply Z.div_pos; lia).
  destruct (2 * (Qnum q mod Z.pos (Qden q)) ?= Z.pos (Qden q))%Z; [|lia|lia].
  destruct (Z.even _); lia.
Qed.

Lemma round_half_even_spec (q : Q) :
  let n := Qnum q in
  let d := Z.pos (Qden q) in
  let z := round_half_even q in
  (- d <= 2 * (n - z * d) <= d)%Z /\
  ((2 * (n - z * d) = d \/ 2 * (n - z * d) = - d)%Z -> Z.even z = true).
Proof.
  intros n d z. subst z. unfold round_half_even. fold n d.
  assert (Hd : (0 < d)%Z) by (unfold d; lia).
  pose proof (Z.div_mod n d ltac:(lia)) as Hdiv.
  pose proof (Z.mod_pos_bound n d Hd) as Hmod.
  set (fl := (n / d)%Z) in *. set (r := (n mod d)%Z) in *.
  assert (Hn : (n - fl * d = r)%Z) by lia.
  assert (Hn1 : (n - (fl + 1) * d = r - d)%Z) by lia.
  destruct (Z.compare_spec (2 * r) d) as [Heq|Hlt|Hgt].
  - destruct (Z.even fl) eqn:Ev.
    + rewrite Hn. split; [lia|]. intros _. exact Ev.
    + rewrite Hn1. split; [lia|]. intros _.
      replace (fl + 1)%Z with (Z.succ fl) by lia.
      rewrite Z.even_succ, <- Z.negb_even, Ev. reflexivity.
  - rewrite Hn. split; lia.
  - rewrite Hn1. split; lia.
Qed.

Lemma round_half_even_mono (q1 q2 : Q) :
  (q1 <= q2)%Q -> (round_half_even q1 <= round_half_even q2)%Z.
Proof.
  intros Hle. unfold Qle in Hle.
  destruct (round_half_even_spec q1) as [[Hlo1 Hhi1] Hev1].
  destruct (round_half_even_spec q2) as [[Hlo2 Hhi2] Hev2].
  set (n1 := Qnum q1) in *. set (d1 := Z.pos (Qden q1)) in *.
  set (n2 := Qnum q2) in *. set (d2 := Z.pos (Qden q2)) in *.
  set (z1 := round_half_even q1) in *. set (z2 := round_half_even q2) in *.
  assert (Hd1 : (0 < d1)%Z) by (unfold d1; lia).
  assert (Hd2 : (0 < d2)%Z) by (unfold d2; lia).
  destruct (Z_le_gt_dec z1 z2) as [H|Hgt]; [exact H|exfalso].
  assert (HD : (0 < d1 * d2)%Z) by lia.
  assert (H1 : ((2 * z1 - 1) * (d1 * d2) <= 2 * (n1 * d2))%Z) by nia.
  assert (H2 : (2 * (n2 * d1) <= (2 * z2 + 1) * (d1 * d2))%Z) by nia.
  assert (Hz : (z1 = z2 + 1)%Z) by nia.
  assert (T1 : (2 * (n1 - z1 * d1) = - d1)%Z) by nia.
  assert (T2 : (2 * (n2 - z2 * d2) = d2)%Z) by nia.
  specialize (Hev1 (or_intror T1)). specialize (Hev2 (or_introl T2)).
  rewrite Hz in Hev1. replace (z2 + 1)%Z with (Z.succ z2) in Hev1 by lia.
  rewrite Z.even_succ, <- Z.negb_even, Hev2 in Hev1. discriminate.
Qed.

(** ** Powers of two *)

Lemma pow2_nonneg (k : Z) : (0 <= k)%Z -> pow2 k = inject_Z (2 ^ k).
Proof. intros Hk. unfold pow2. destruct (Z.leb_spec 0 k); [reflexivity|lia]. Qed.

Lemma pow2_ratio (k N : Z) :
  (0 <= N)%Z -> (0 <= k + N)%Z ->
  (pow2 k * inject_Z (2 ^ N) == inject_Z (2 ^ (k + N)))%Q.
Proof.
  intros HN HkN. unfold pow2. destruct (Z.leb_spec 0 k) as [Hk|Hk].
  - rewrite <- inject_Z_mult, Z.pow_add_r by lia. reflexivity.
  - unfold Qeq, Qmult, inject_Z. cbn [Qnum Qden].
    assert (Hp : (0 < 2 ^ (- k))%Z) by (apply Z.pow_pos_nonneg; lia).
    rewrite Pos.mul_1_r, Z2Pos.id, Z.mul_1_l, Z.mul_1_r by exact Hp.
    rewrite <- Z.pow_add_r by lia. f_equal. lia.
Qed.

Lemma pow2_pos (k : Z) : (0 < pow2 k)%Q.
Proof.
  unfold pow2. destruct (Z.leb_spec 0 k) as [Hk|Hk].
  - change 0%Q with (inject_Z 0). rewrite <- Zlt_Qlt. apply Z.pow_pos_nonneg; lia.
  - reflexivity.
Qed.

Lemma inject_pow_nonzero (N : Z) : (0 <= N)%Z -> ~ (inject_Z (2 ^ N) == 0)%Q.
Proof.
  intros HN E. unfold Qeq, inject_Z in E. cbn [Qnum Qden] in E.
  pose proof (Z.pow_pos_nonneg 2 N ltac:(lia) HN). lia.
Qed.

Lemma pow2_add (a b : Z) : (pow2 (a + b) == pow2 a * pow2 b)%Q.
Proof.
  set (N1 := Z.abs a). set (N2 := Z.abs b).
  assert (H1 : (0 <= N1 /\ 0 <= a + N1)%Z) by (unfold N1; lia).
  assert (H2 : (0 <= N2 /\ 0 <= b + N2)%Z) by (unfold N2; lia).
  clearbody N1 N2.
  assert (Hnz : ~ (inject_Z (2 ^ (N1 + N2)) == 0)%Q) by (apply inject_pow_nonzero; lia).
  apply (proj1 (Qmult_inj_r _ _ _ Hnz)).
  rewrite pow2_ratio by lia.
  rewrite (Z.pow_add_r 2 N1 N2), inject_Z_mult by lia.
  transitivity ((pow2 a * inject_Z (2 ^ N1)) * (pow2 b * inject_Z (2 ^ N2)))%Q; [|ring].
  rewrite !pow2_ratio by lia. rewrite <- inject_Z_mult, <- Z.pow_add_r by lia.
  replace (a + b + (N1 + N2))%Z with (a + N1 + (b + N2))%Z by lia. reflexivity.
Qed.

Lemma pow2_ge_1 (k : Z) : (0 <= k)%Z -> (1 <= pow2 k)%Q.
Proof.
  intros Hk. rewrite pow2_nonneg by exact Hk. change 1%Q with (inject_Z 1).
  rewrite <- Zle_Qle. pose proof (Z.pow_pos_nonneg 2 k ltac:(lia) Hk). lia.
Qed.

Lemma pow2_le (a b : Z) : (a <= b)%Z -> (pow2 a <= pow2 b)%Q.
Proof.
  intros Hab. replace b with (a + (b - a))%Z by lia. rewrite pow2_add.
  rewrite <- (Qmult_1_r (pow2 a)) at 1. rewrite !(Qmult_comm (pow2 a)).
  apply Qmult_le_compat_r; [apply pow2_ge_1; lia|]. apply Qlt_le_weak, pow2_pos.
Qed.

Lemma pow2_lt (a b : Z) : (a < b)%Z -> (pow2 a < pow2 b)%Q.
Proof.
  intros Hab. replace b with (a + 1 + (b - a - 1))%Z by lia.
  apply Qlt_le_trans with (pow2 (a + 1)); [|apply pow2_le; lia].
  rewrite pow2_add. change (pow2 1) with 2%Q.
  pose proof (pow2_pos a). lra.
Qed.

Lemma pow2_lt_inv (a b : Z) : (pow2 a < pow2 b)%Q -> (a < b)%Z.
Proof.
  intros H. destruct (Z_lt_ge_dec a b) as [Hlt|Hge]; [exact Hlt|exfalso].
  apply (Qlt_not_le _ _ H). apply pow2_le. lia.
Qed.

Lemma inject_pow_pos (N : Z) : (0 <= N)%Z -> (0 < inject_Z (2 ^ N))%Q.
Proof.
  intros HN. change 0%Q with (inject_Z 0). rewrite <- Zlt_Qlt.
  apply Z.pow_pos_nonneg; lia.
Qed.

(** Comparisons with a power of two, over the integers. *)
Lemma lt_pow2_iff (n : Z) (d : positive) (K N : Z) :
  (0 <= N)%Z -> (0 <= K + N)%Z ->
  ((n # d) < pow2 K)%Q <-> (n * 2 ^ N < 2 ^ (K + N) * Z.pos d)%Z.
Proof.
  intros HN HK.
  rewrite <- (Qmult_lt_r _ _ (inject_Z (2 ^ N))) by now apply inject_pow_pos.
  rewrite pow2_ratio by assumption.
  unfold Qlt, Qmult, inject_Z. cbn [Qnum Qden].
  rewrite Pos.mul_1_r, Z.mul_1_r. reflexivity.
Qed.

Lemma pow2_le_iff (n : Z) (d : positive) (K N : Z) :
  (0 <= N)%Z -> (0 <= K + N)%Z ->
  (pow2 K <= (n # d))%Q <-> (2 ^ (K + N) * Z.pos d <= n * 2 ^ N)%Z.
Proof.
  intros HN HK.
  rewrite <- (Qmult_le_r _ _ (inject_Z (2 ^ N))) by now apply inject_pow_pos.
  rewrite pow2_ratio by assumption.
  unfold Qle, Qmult, inject_Z. cbn [Qnum Qden].
  rewrite Pos.mul_1_r, Z.mul_1_r. reflexivity.
Qed.

(** ** The binary logarithm *)

Lemma Qlog2_spec (q : Q) :
  (0 < q)%Q -> (pow2 (Qlog2 q) <= q < pow2 (Qlog2 q + 1))%Q.
Proof.
  destruct q as [n d]. intros Hq.
  assert (Hn : (0 < n)%Z) by (unfold Qlt in Hq; simpl in Hq; lia).
  unfold Qlog2. cbn [Qnum Qden].
  destruct (Z.log2_spec n Hn) as [Hn1 Hn2].
  destruct (Z.log2_spec (Z.pos d) ltac:(lia)) as [Hd1 Hd2].
  pose proof (Z.log2_nonneg n) as Hla. pose proof (Z.log2_nonneg (Z.pos d)) as Hlb.
  set (la := Z.log2 n) in *. set (lb := Z.log2 (Z.pos d)) in *.
  rewrite Z.pow_succ_r in Hn2, Hd2 by assumption.
  assert (Pa : (0 < 2 ^ la)%Z) by (apply Z.pow_pos_nonneg; lia).
  assert (Pb : (0 < 2 ^ lb)%Z) by (apply Z.pow_pos_nonneg; lia).
  destruct (Qle_bool (pow2 (la - lb)) (n # d)) eqn:E.
  - split; [now apply Qle_bool_iff|].
    apply (lt_pow2_iff n d (la - lb + 1) lb); [lia|lia|].
    replace (la - lb + 1 + lb)%Z with (Z.succ la) by lia.
    rewrite Z.pow_succ_r by lia. nia.
  - split.
    + apply (pow2_le_iff n d (la - lb - 1) (lb + 1)); [lia|lia|].
      replace (la - lb - 1 + (lb + 1))%Z with la by lia.
      replace (lb + 1)%Z with (Z.succ lb) by lia.
      rewrite Z.pow_succ_r by lia. nia.
    + replace (la - lb - 1 + 1)%Z with (la - lb)%Z by lia.
      apply Qnot_le_lt. intros H. apply Qle_bool_iff in H. congruence.
Qed.

Lemma Qlog2_unique (q : Q) (e : Z) :
  (pow2 e <= q < pow2 (e + 1))%Q -> Qlog2 q = e.
Proof.
  intros [Hlo Hhi].
  assert (Hq : (0 < q)%Q) by (eapply Qlt_le_trans; [apply (pow2_pos e)|exact Hlo]).
  destruct (Qlog2_spec q Hq) as [Hlo' Hhi'].
  assert (H1 : (e < Qlog2 q + 1)%Z).
  { apply pow2_lt_inv. eapply Qle_lt_trans; eassumption. }
  assert (H2 : (Qlog2 q < e + 1)%Z).
  { apply pow2_lt_inv. eapply Qle_lt_trans; eassumption. }
  lia.
Qed.

(** A bound on the logarithm from a bound on the number. *)
Lemma Qlog2_lt (q : Q) (E : Z) : (0 < q)%Q -> (q < pow2 E)%Q -> (Qlog2 q < E)%Z.
Proof.
  intros Hq Hlt. apply pow2_lt_inv.
  eapply Qle_lt_trans; [apply (Qlog2_spec q Hq)|exact Hlt].
Qed.

Lemma Qlog2_ge (q : Q) (E : Z) : (pow2 E <= q)%Q -> (E <= Qlog2 q)%Z.
Proof.
  intros Hle.
  assert (Hq : (0 < q)%Q) by (eapply Qlt_le_trans; [apply (pow2_pos E)|exact Hle]).
  assert (H : (E < Qlog2 q + 1)%Z); [|lia].
  apply pow2_lt_inv. eapply Qle_lt_trans; [exact Hle|apply (Qlog2_spec q Hq)].
Qed.

(** ** The nearest integer *)

Lemma round_half_even_int (z : Z) : round_half_even (inject_Z z) = z.
Proof.
  unfold round_half_even, inject_Z. cbn [Qnum Qden].
  rewrite Z.div_1_r, Z.mod_1_r. reflexivity.
Qed.

Lemma round_half_even_Qeq (q1 q2 : Q) :
  (q1 == q2)%Q -> round_half_even q1 = round_half_even q2.
Proof.
  intros E. apply Z.le_antisymm; apply round_half_even_mono; rewrite E; apply Qle_refl.
Qed.

Lemma round_half_even_error (q : Q) :
  (Qabs (inject_Z (round_half_even q) - q) <= 1 # 2)%Q.
Proof.
  destruct (round_half_even_spec q) as [[Hlo Hhi] _].
  set (z := round_half_even q) in *. destruct q as [n d]. cbn [Qnum Qden] in *.
  apply Qabs_Qle_condition.
  unfold Qle, Qminus, Qplus, Qopp, inject_Z. cbn [Qnum Qden]. split; nia.
Qed.

(** The nearest integer of the opposite is the opposite. *)
Lemma round_half_even_unique (q : Q) (z : Z) :
  (- Z.pos (Qden q) <= 2 * (Qnum q - z * Z.pos (Qden q)) <= Z.pos (Qden q))%Z ->
  ((2 * (Qnum q - z * Z.pos (Qden q)) = Z.pos (Qden q) \/
    2 * (Qnum q - z * Z.pos (Qden q)) = - Z.pos (Qden q))%Z -> Z.even z = true) ->
  round_half_even q = z.
Proof.
  intros Hb Hev.
  destruct (round_half_even_spec q) as [Hb' Hev'].
  set (z' := round_half_even q) in *.
  set (n := Qnum q) in *. set (d := Z.pos (Qden q)) in *.
  assert (Hd : (0 < d)%Z) by (unfold d; lia).
  assert (Hc : (z' = z \/ z' = z + 1 \/ z = z' + 1)%Z) by nia.
  destruct Hc as [H|[H|H]]; [exact H| |]; exfalso.
  - assert (T1 : (2 * (n - z' * d) = - d)%Z) by nia.
    assert (T2 : (2 * (n - z * d) = d)%Z) by nia.
    specialize (Hev (or_introl T2)). specialize (Hev' (or_intror T1)).
    rewrite H in Hev'. replace (z + 1)%Z with (Z.succ z) in Hev' by lia.
    rewrite Z.even_succ, <- Z.negb_even, Hev in Hev'. discriminate.
  - assert (T1 : (2 * (n - z' * d) = d)%Z) by nia.
    assert (T2 : (2 * (n - z * d) = - d)%Z) by nia.
    specialize (Hev (or_intror T2)). specialize (Hev' (or_introl T1)).
    rewrite H in Hev. replace (z' + 1)%Z with (Z.succ z') in Hev by lia.
    rewrite Z.even_succ, <- Z.negb_even, Hev' in Hev. discriminate.
Qed.

Lemma round_half_even_opp (q : Q) : round_half_even (- q) = (- round_half_even q)%Z.
Proof.
  destruct (round_half_even_spec q) as [Hb Hev].
  apply round_half_even_unique.
  - destruct q as [n d]. cbn [Qnum Qden Qopp] in *. lia.
  - destruct q as [n d]. cbn [Qnum Qden Qopp] in *. intros H.
    rewrite Z.even_opp. apply Hev. lia.
Qed.

(** ** The nearest multiple of the unit in the last place *)

Lemma Qabs_opp_eq (q : Q) : Qabs (- q) = Qabs q.
Proof. destruct q as [n d]. unfold Qabs, Qopp. cbn [Qnum Qden]. now rewrite Z.abs_opp. Qed.

Lemma Qabs_pos_eq (q : Q) : (0 <= q)%Q -> Qabs q = q.
Proof.
  destruct q as [n d]. intros H. unfold Qabs.
  rewrite Z.abs_eq; [reflexivity|]. unfold Qle in H. simpl in H. lia.
Qed.

Lemma ulp_exp_opp (q : Q) : ulp_exp (- q) = ulp_exp q.
Proof. unfold ulp_exp. now rewrite Qabs_opp_eq. Qed.

Lemma nearest_opp (q : Q) : (nearest (- q) == - nearest q)%Q.
Proof.
  unfold nearest. rewrite ulp_exp_opp.
  rewrite (round_half_even_Qeq (- q / pow2 (ulp_exp q)) (- (q / pow2 (ulp_exp q))))
    by (unfold Qdiv; ring).
  rewrite round_half_even_opp, inject_Z_opp. ring.
Qed.

Lemma pow2_split (E k : Z) :
  (k <= E)%Z -> (inject_Z (2 ^ (E - k)) * pow2 k == pow2 E)%Q.
Proof.
  intros H. rewrite <- pow2_nonneg by lia. rewrite <- pow2_add.
  replace (E - k + k)%Z with E by lia. reflexivity.
Qed.

Lemma nearest_le_pow2 (q : Q) (E : Z) :
  (q <= pow2 E)%Q -> (ulp_exp q <= E)%Z -> (nearest q <= pow2 E)%Q.
Proof.
  intros Hq Hk. unfold nearest. set (k := ulp_exp q) in *.
  rewrite <- (pow2_split E k Hk).
  apply Qmult_le_compat_r; [|apply Qlt_le_weak, pow2_pos].
  rewrite <- Zle_Qle. rewrite <- (round_half_even_int (2 ^ (E - k))).
  apply round_half_even_mono.
  apply Qle_shift_div_r; [apply pow2_pos|]. now rewrite pow2_split.
Qed.

Lemma nearest_ge_pow2 (q : Q) (E : Z) :
  (pow2 E <= q)%Q -> (ulp_exp q <= E)%Z -> (pow2 E <= nearest q)%Q.
Proof.
  intros Hq Hk. unfold nearest. set (k := ulp_exp q) in *.
  rewrite <- (pow2_split E k Hk).
  apply Qmult_le_compat_r; [|apply Qlt_le_weak, pow2_pos].
  rewrite <- Zle_Qle. rewrite <- (round_half_even_int (2 ^ (E - k))) at 1.
  apply round_half_even_mono.
  apply Qle_shift_div_l; [apply pow2_pos|]. now rewrite pow2_split.
Qed.

Lemma nearest_nonneg (q : Q) : (0 <= q)%Q -> (0 <= nearest q)%Q.
Proof.
  intros Hq. unfold nearest.
  apply Qmult_le_0_compat; [|apply Qlt_le_weak, pow2_pos].
  change 0%Q with (inject_Z 0). rewrite <- Zle_Qle.
  apply round_half_even_nonneg.
  apply Qle_shift_div_l; [apply pow2_pos|]. now rewrite Qmult_0_l.
Qed.

Lemma nearest_nonpos (q : Q) : (q <= 0)%Q -> (nearest q <= 0)%Q.
Proof.
  intros Hq.
  assert (H : (0 <= nearest (- q))%Q) by (apply nearest_nonneg; lra).
  rewrite nearest_opp in H. lra.
Qed.

Lemma ulp_exp_pos (q : Q) :
  (0 < q)%Q -> ulp_exp q = Z.max (Qlog2 q - 52) (-1074).
Proof.
  intros Hq. unfold ulp_exp. rewrite Qabs_pos_eq; [reflexivity|now apply Qlt_le_weak].
Qed.

Lemma nearest_mono_pos (q1 q2 : Q) :
  (0 < q1)%Q -> (q1 <= q2)%Q -> (nearest q1 <= nearest q2)%Q.
Proof.
  intros H1 Hle.
  assert (H2 : (0 < q2)%Q) by (eapply Qlt_le_trans; eassumption).
  destruct (Qlog2_spec q1 H1) as [Hlo1 Hhi1].
  destruct (Qlog2_spec q2 H2) as [Hlo2 Hhi2].
  pose proof (ulp_exp_pos q1 H1) as Hk1. pose proof (ulp_exp_pos q2 H2) as Hk2.
  set (e1 := Qlog2 q1) in *. set (e2 := Qlog2 q2) in *.
  assert (He : (e1 <= e2)%Z).
  { assert (e1 < e2 + 1)%Z; [|lia]. apply pow2_lt_inv.
    eapply Qle_lt_trans; [exact Hlo1|]. eapply Qle_lt_trans; eassumption. }
  destruct (Z.eq_dec (ulp_exp q1) (ulp_exp q2)) as [Heq|Hne].
  - unfold nearest. rewrite Heq.
    apply Qmult_le_compat_r; [|apply Qlt_le_weak, pow2_pos].
    rewrite <- Zle_Qle. apply round_half_even_mono.
    apply Qmult_le_compat_r; [exact Hle|].
    apply Qlt_le_weak, Qinv_lt_0_compat, pow2_pos.
  - assert (Hlt : (e1 < e2)%Z) by lia.
    apply Qle_trans with (pow2 e2).
    + apply nearest_le_pow2; [|lia].
      apply Qle_trans with (pow2 (e1 + 1)); [now apply Qlt_le_weak|].
      apply pow2_le. lia.
    + apply nearest_ge_pow2; [exact Hlo2|lia].
Qed.

Lemma nearest_mono (q1 q2 : Q) : (q1 <= q2)%Q -> (nearest q1 <= nearest q2)%Q.
Proof.
  intros Hle.
  destruct (Qlt_le_dec 0 q1) as [H1|H1].
  - now apply nearest_mono_pos.
  - destruct (Qlt_le_dec q2 0) as [H2|H2].
    + assert (H : (nearest (- q2) <= nearest (- q1))%Q).
      { apply nearest_mono_pos; lra. }
      rewrite !nearest_opp in H. lra.
    + apply Qle_trans with 0%Q; [now apply nearest_nonpos|now apply nearest_nonneg].
Qed.

Lemma nearest_Qeq (q1 q2 : Q) : (q1 == q2)%Q -> (nearest q1 == nearest q2)%Q.
Proof.
  intros E. apply Qle_antisym; apply nearest_mono; rewrite E; apply Qle_refl.
Qed.

(** The nearest multiple is within half a unit. *)
Lemma nearest_error (q : Q) :
  (Qabs (nearest q - q) <= pow2 (ulp_exp q) * (1 # 2))%Q.
Proof.
  unfold nearest. set (k := ulp_exp q). pose proof (pow2_pos k) as Hk.
  pose proof (round_half_even_error (q / pow2 k)) as H.
  set (n := round_half_even (q / pow2 k)) in *.
  assert (E : (inject_Z n * pow2 k - q == (inject_Z n - q / pow2 k) * pow2 k)%Q).
  { field. intros E. rewrite E in Hk. now apply Qlt_irrefl in Hk. }
  rewrite E, Qabs_Qmult, (Qabs_pos (pow2 k)) by now apply Qlt_le_weak.
  rewrite (Qmult_comm (pow2 k)).
  apply Qmult_le_compat_r; [exact H|now apply Qlt_le_weak].
Qed.

(** ** Rounding to the nearest float *)

Lemma nearest_zero (q : Q) : (q == 0)%Q -> (nearest q == 0)%Q.
Proof. intros E. rewrite (nearest_Qeq q 0 E). reflexivity. Qed.

Lemma nearest_abs (q : Q) : (Qabs (nearest q) == nearest (Qabs q))%Q.
Proof.
  destruct (Qlt_le_dec q 0) as [H|H].
  - rewrite (Qabs_neg (nearest q)) by (apply nearest_nonpos; lra).
    rewrite <- nearest_opp. apply nearest_Qeq. symmetry. apply Qabs_neg. lra.
  - rewrite (Qabs_pos_eq q H). apply Qabs_pos. now apply nearest_nonneg.
Qed.

(** What [rnd] returns: an infinity when the nearest multiple is out of
    range, and that multiple otherwise. *)
Lemma rnd_spec (q : Q) :
  match rnd q with
  | FNaN => False
  | FInf false => (pow2 1024 <= nearest q)%Q
  | FInf true => (nearest q <= - pow2 1024)%Q
  | FVal v => (v == nearest q)%Q /\ (Qabs (nearest q) < pow2 1024)%Q
  | FNegZero => (nearest q == 0)%Q
  end.
Proof.
  unfold rnd, round_to. destruct (Qeq_bool q 0) eqn:E0.
  - apply Qeq_bool_iff in E0. rewrite Qlt_bool_nonneg by (rewrite E0; apply Qle_refl).
    cbn [fzero]. rewrite (nearest_zero q E0). split; reflexivity.
  - cbv zeta. destruct (Qeq_bool (nearest q) 0) eqn:Ev.
    + apply Qeq_bool_iff in Ev.
      destruct (Qlt_bool q 0); cbn [fzero]; [exact Ev|].
      rewrite Ev. split; reflexivity.
    + destruct (Qle_bool (pow2 1024) (Qabs (nearest q))) eqn:Eo.
      * apply Qle_bool_iff in Eo. destruct (Qlt_bool q 0) eqn:Es.
        -- apply Qlt_bool_iff in Es.
           rewrite Qabs_neg in Eo by (apply nearest_nonpos; lra). lra.
        -- assert (Hq : (0 <= q)%Q).
           { apply Qnot_lt_le. intros H. apply Qlt_bool_iff in H. congruence. }
           rewrite Qabs_pos in Eo by now apply nearest_nonneg. exact Eo.
      * split; [apply Qred_correct|].
        apply Qnot_le_lt. intros H. apply Qle_bool_iff in H. congruence.
Qed.

(** Rounding is monotone. *)
Lemma rnd_mono (q1 q2 : Q) : (q1 <= q2)%Q -> fle (rnd q1) (rnd q2) = true.
Proof.
  intros Hle. pose proof (nearest_mono q1 q2 Hle) as Hn.
  pose proof (rnd_spec q1) as H1. pose proof (rnd_spec q2) as H2.
  pose proof (pow2_pos 1024) as Hp.
  destruct (rnd q1) as [|[]|v1|], (rnd q2) as [|[]|v2|]; simpl;
    try contradiction; try reflexivity; first [apply Qle_bool_iff|exfalso];
    repeat match goal with
           | H : _ /\ _ |- _ => destruct H
           | H : (Qabs _ < _)%Q |- _ => apply Qabs_Qlt_condition in H
           end; lra.
Qed.

(** ** Floats are left as they are *)

Lemma Qabs_inject_Z (z : Z) : Qabs (inject_Z z) = inject_Z (Z.abs z).
Proof. reflexivity. Qed.

Lemma nearest_fixed (q : Q) (z j : Z) :
  (Z.abs z < 2 ^ 53)%Z -> (-1074 <= j)%Z -> (q == inject_Z z * pow2 j)%Q ->
  (nearest q == q)%Q.
Proof.
  intros Hz Hj Hq. pose proof (pow2_pos j) as Pj.
  destruct (Z.eq_dec z 0%Z) as [->|Hnz].
  { assert (E : (q == 0)%Q) by (rewrite Hq; ring).
    rewrite (nearest_zero q E). now symmetry. }
  assert (Ha : (Qabs q == inject_Z (Z.abs z) * pow2 j)%Q).
  { rewrite Hq, Qabs_Qmult, Qabs_inject_Z, (Qabs_pos (pow2 j)) by now apply Qlt_le_weak.
    reflexivity. }
  assert (Hpos : (0 < Qabs q)%Q).
  { rewrite Ha. apply Qmult_lt_0_compat; [|exact Pj].
    change 0%Q with (inject_Z 0). rewrite <- Zlt_Qlt. lia. }
  assert (Hlt : (Qabs q < pow2 (53 + j))%Q).
  { rewrite Ha, pow2_add. apply Qmult_lt_compat_r; [exact Pj|].
    rewrite (pow2_nonneg 53) by lia. now rewrite <- Zlt_Qlt. }
  pose proof (Qlog2_lt _ _ Hpos Hlt) as He.
  assert (Hk : (ulp_exp q <= j)%Z) by (unfold ulp_exp; lia).
  unfold nearest. set (k := ulp_exp q) in *. pose proof (pow2_pos k) as Pk.
  assert (E : (q / pow2 k == inject_Z (z * 2 ^ (j - k)))%Q).
  { rewrite Hq, <- (pow2_split j k Hk), inject_Z_mult. field.
    intros E. rewrite E in Pk. now apply Qlt_irrefl in Pk. }
  rewrite (round_half_even_Qeq _ _ E), round_half_even_int, inject_Z_mult.
  rewrite <- Qmult_assoc, pow2_split by exact Hk. now symmetry.
Qed.

(** Rounding a float gives it back. *)
Lemma rnd_float (q : Q) : is_float q -> exists v, rnd q = FVal v /\ (v == q)%Q.
Proof.
  intros (z & j & Hz & Hj & Hq & Hb).
  pose proof (nearest_fixed q z j Hz Hj Hq) as Hn.
  pose proof (rnd_spec q) as Hs.
  pose proof (pow2_pos 1024) as Hp.
  apply Qabs_Qlt_condition in Hb.
  destruct (rnd q) as [|[]|v|] eqn:E.
  - contradiction.
  - exfalso. lra.
  - exfalso. lra.
  - exists v. split; [reflexivity|]. destruct Hs as [Hv _]. now rewrite Hv.
  - exfalso. revert E. unfold rnd, round_to.
    assert (Hq0 : (q == 0)%Q) by (rewrite <- Hn; exact Hs).
    rewrite Qlt_bool_nonneg by (rewrite Hq0; apply Qle_refl).
    destruct (Qeq_bool q 0); [discriminate|]. cbv zeta.
    destruct (Qeq_bool (nearest q) 0); [discriminate|].
    destruct (Qle_bool _ _); discriminate.
Qed.

(** ** Accuracy *)

(** Within the range of the floats nothing overflows. *)
Lemma nearest_bounded (q : Q) (E : Z) :
  (-1074 <= E)%Z -> (Qabs q <= pow2 E)%Q -> (Qabs (nearest q) <= pow2 E)%Q.
Proof.
  intros HE Hq. rewrite nearest_abs.
  destruct (Qeq_dec (Qabs q) 0) as [E0|Hne].
  - rewrite (nearest_zero _ E0). apply Qlt_le_weak, pow2_pos.
  - assert (Hpos : (0 < Qabs q)%Q).
    { pose proof (Qabs_nonneg q) as Hnn. apply Qnot_le_lt. intros Hc. apply Hne. lra. }
    apply nearest_le_pow2; [exact Hq|].
    rewrite ulp_exp_pos by exact Hpos.
    assert (Hl : (Qlog2 (Qabs q) < E + 1)%Z).
    { apply Qlog2_lt; [exact Hpos|]. eapply Qle_lt_trans; [exact Hq|]. apply pow2_lt. lia. }
    lia.
Qed.

Lemma rnd_finite (q : Q) :
  (Qabs q <= pow2 1023)%Q ->
  match rnd q with
  | FVal v => (v == nearest q)%Q
  | FNegZero => (nearest q == 0)%Q
  | _ => False
  end.
Proof.
  intros Hq. pose proof (nearest_bounded q 1023 ltac:(lia) Hq) as Hb.
  pose proof (rnd_spec q) as Hs.
  assert (Hp : (pow2 1023 < pow2 1024)%Q) by (apply pow2_lt; lia).
  apply Qabs_Qle_condition in Hb.
  destruct (rnd q) as [|[]|v|]; try contradiction; lra.
Qed.

(** In the range of the normal floats the relative error of a rounding is at
    most [2 ^ -53]. *)
Lemma rnd_accurate (q : Q) :
  (pow2 (-1022) <= Qabs q <= pow2 1023)%Q ->
  exists v, rnd q = FVal v /\ (Qabs (v - q) <= Qabs q * (1 # 9007199254740992))%Q.
Proof.
  intros [Hlo Hhi].
  pose proof (Qlog2_ge _ _ Hlo) as He.
  assert (Hpos : (0 < Qabs q)%Q) by (eapply Qlt_le_trans; [apply (pow2_pos (-1022))|exact Hlo]).
  destruct (Qlog2_spec _ Hpos) as [Hlog _].
  assert (Hk : ulp_exp q = (Qlog2 (Qabs q) - 52)%Z) by (unfold ulp_exp; lia).
  pose proof (nearest_error q) as Herr. rewrite Hk in Herr.
  set (e := Qlog2 (Qabs q)) in *.
  assert (Herr' : (Qabs (nearest q - q) <= Qabs q * (1 # 9007199254740992))%Q).
  { eapply Qle_trans; [exact Herr|].
    assert (E : (pow2 (e - 52) * (1 # 2) == pow2 e * (1 # 9007199254740992))%Q).
    { replace (e - 52)%Z with (e + (-52))%Z by lia. rewrite pow2_add.
      change (pow2 (-52)) with (1 # 4503599627370496)%Q. ring. }
    rewrite E. apply Qmult_le_compat_r; [exact Hlog|discriminate]. }
  assert (Hnz : ~ (nearest q == 0)%Q).
  { intros E0. rewrite E0 in Herr'.
    assert (E1 : (Qabs (0 - q) == Qabs q)%Q).
    { rewrite <- (Qabs_opp q). apply Qabs_wd. ring. }
    rewrite E1 in Herr'.
    assert (Hc : (Qabs q * (1 # 9007199254740992) < Qabs q * 1)%Q).
    { rewrite !(Qmult_comm (Qabs q)). apply Qmult_lt_compat_r; [exact Hpos|reflexivity]. }
    lra. }
  pose proof (rnd_finite q Hhi) as Hf.
  destruct (rnd q) as [|[]|v|]; try contradiction.
  exists v. split; [reflexivity|]. now rewrite Hf.
Qed.

(** ** Order on floats *)

Lemma fle_trans (x y z : float64) :
  fle x y = true -> fle y z = true -> fle x z = true.
Proof.
  destruct x as [|[]|a|], y as [|[]|b|], z as [|[]|c|]; simpl; try congruence;
    rewrite !Qle_bool_iff; apply Qle_trans.
Qed.

Lemma fle_refl_l (x y : float64) : fle x y = true -> fle x x = true.
Proof.
  destruct x as [|[]|a|], y as [|[]|b|]; simpl; try congruence;
    intros _; apply Qle_bool_iff, Qle_refl.
Qed.

Lemma fle_refl_r (x y : float64) : fle x y = true -> fle y y = true.
Proof.
  destruct x as [|[]|a|], y as [|[]|b|]; simpl; try congruence;
    intros _; apply Qle_bool_iff, Qle_refl.
Qed.

Lemma strike_le_trans : Transitive strike_le.
Proof. intros a b c. unfold strike_le. apply fle_trans. Qed.

(** ** Sorted tables *)

Lemma ascending_strongly (options : list quote) :
  ascending_by_strike options -> StronglySorted strike_le options.
Proof. apply Sorted_StronglySorted. exact strike_le_trans. Qed.

Lemma filter_strongly_sorted (R : quote -> quote -> Prop) (f : quote -> bool)
    (l : list quote) :
  StronglySorted R l -> StronglySorted R (List.filter f l).
Proof.
  induction 1 as [|a l Hl IH Ha]; simpl.
  - constructor.
  - destruct (f a); [constructor|]; auto.
    rewrite List.Forall_forall in *. intros x Hx.
    apply List.filter_In in Hx. apply Ha. tauto.
Qed.

(** The first row of a sorted table is below every row. *)
Lemma head_least (R : quote -> quote -> Prop) (l : list quote) (x : quote) :
  StronglySorted R l -> head l = Some x ->
  forall y, In y l -> y = x \/ R x y.
Proof.
  intros Hs Hh y Hy. destruct l as [|a l]; [discriminate|].
  simpl in Hh. injection Hh as ->.
  apply StronglySorted_inv in Hs as [_ Hall].
  destruct Hy as [->|Hy]; [now left|right].
  rewrite List.Forall_forall in Hall. auto.
Qed.

(** The last row of a sorted table is above every row. *)
Lemma last_greatest (R : quote -> quote -> Prop) (l : list quote) (x : quote) :
  StronglySorted R l -> head (rev l) = Some x ->
  forall y, In y l -> y = x \/ R y x.
Proof.
  induction 1 as [|a l Hl IH Ha]; simpl; [discriminate|].
  intros Hh y Hy.
  destruct (rev l) as [|b r] eqn:Er.
  - assert (l = []) as ->.
    { rewrite <- (rev_involutive l), Er. reflexivity. }
    simpl in Hh. injection Hh as <-. destruct Hy as [->|[]]. now left.
  - simpl in Hh. injection Hh as ->.
    destruct Hy as [<-|Hy].
    + right. rewrite List.Forall_forall in Ha. apply Ha.
      apply in_rev. rewrite Er. now left.
    + apply IH; auto.
Qed.

Lemma head_rev_in (l : list quote) (x : quote) :
  head (rev l) = Some x -> In x l.
Proof.
  intros H. apply in_rev. destruct (rev l); [discriminate|].
  injection H as ->. now left.
Qed.

Lemma head_in (l : list quote) (x : quote) : head l = Some x -> In x l.
Proof. destruct l; [discriminate|]. intros H. injection H as ->. now left. Qed.

Lemma head_rev_none (l : list quote) : head (rev l) = None -> l = [].
Proof.
  intros H. rewrite <- (rev_involutive l).
  destruct (rev l); [reflexivity|discriminate].
Qed.

Lemma head_none (l : list quote) : head l = None -> l = [].
Proof. destruct l; [reflexivity|discriminate]. Qed.

(** ** Candidate selector *)

Lemma selected_put (target : float64) (options : list quote) :
  ascending_by_strike options ->
  let eligible := List.filter (fun q => fle (strike q) target) options in
  match selected CSP eligible with
  | Some sel =>
      In sel eligible /\ forall q, In q eligible -> fle (strike q) (strike sel) = true
  | None => eligible = []
  end.
Proof.
  intros Hsorted eligible.
  change (selected CSP eligible) with (head (rev eligible)).
  destruct (head (rev eligible)) as [sel|] eqn:Hsel.
  - split; [now apply head_rev_in|].
    intros q Hq.
    assert (Hs : StronglySorted strike_le eligible).
    { apply filter_strongly_sorted, ascending_strongly, Hsorted. }
    destruct (last_greatest _ _ _ Hs Hsel q Hq) as [->|H]; [|exact H].
    apply head_rev_in, List.filter_In in Hsel as [_ Hsel].
    now apply fle_refl_l in Hsel.
  - now apply head_rev_none.
Qed.

Lemma selected_call (target : float64) (options : list quote) :
  ascending_by_strike options ->
  let eligible := List.filter (fun q => fle target (strike q)) options in
  match selected CC eligible with
  | Some sel =>
      In sel eligible /\ forall q, In q eligible -> fle (strike sel) (strike q) = true
  | None => eligible = []
  end.
Proof.
  intros Hsorted eligible.
  change (selected CC eligible) with (head eligible).
  destruct (head eligible) as [sel|] eqn:Hsel.
  - split; [now apply head_in|].
    intros q Hq.
    assert (Hs : StronglySorted strike_le eligible).
    { apply filter_strongly_sorted, ascending_strongly, Hsorted. }
    destruct (head_least _ _ _ Hs Hsel q Hq) as [->|H]; [|exact H].
    apply head_in, List.filter_In in Hsel as [_ Hsel].
    now apply fle_refl_r in Hsel.
  - now apply head_none.
Qed.

Lemma target_strike_eq (strategy : string) (price : float64) (m : Z)
    (fraction : float64) :
  int_truediv m 100 = Ok fraction ->
  target_strike strategy price m =
  Ok (np_round2 (if is_csp strategy
                 then fmul price (fsub (of_int 1) fraction)
                 else fmul price (fadd (of_int 1) fraction))).
Proof. intros H. unfold target_strike. rewrite H. reflexivity. Qed.

Lemma select_candidate_eq (strategy : string) (m : Z) (stock : stock_t)
    (price : float64) (expiration : date_text) (chain : opt_chain_t)
    (target : float64) :
  option_chain stock expiration = Ok chain ->
  target_strike strategy price m = Ok target ->
  select_candidate strategy m stock price expiration =
  Ok (selected strategy (options_filtered strategy (options_of strategy chain) target)).
Proof.
  intros Hchain Htarget. unfold select_candidate.
  rewrite Hchain. simpl. rewrite Htarget. reflexivity.
Qed.

(** An expiration without a selected quote, or whose selection raises, leaves
    the rows as they are and raises nothing. *)
Lemma no_candidate_skipped (now : datetime) (strategy : string) (m : Z)
    (ticker : string) (stock : stock_t) (inf : gmap string pyval)
    (price : float64) (rows : list row) (expiration : date_text) :
  select_candidate strategy m stock price expiration = Ok None \/
  (exists x, select_candidate strategy m stock price expiration = Raise x) ->
  try_except (expiration_body now strategy m ticker stock inf price rows expiration)
    (fun _ => Ok rows) = Ok rows.
Proof.
  unfold expiration_body. intros [H|[x H]]; rewrite H; reflexivity.
Qed.

(** The percentages offered by the select box divide into a float. *)
Lemma moneyness_choices_divide (m : Z) :
  In m moneyness_choices -> exists fraction, int_truediv m 100 = Ok fraction.
Proof.
  unfold moneyness_choices. simpl.
  intros H. repeat (destruct H as [<-|H]; [eexists; vm_compute; reflexivity|]).
  contradiction.
Qed.

(** C1. Candidate selector.  For every current price, moneyness percentage
    [m], option chain listed by ascending strike and expiration whose chain
    it is: [m / 100] is a float for every percentage of the select box; when
    it is a float, under the cash-secured put strategy the target is
    [round(price * (1 - m/100), 2)], the eligible quotes are the puts with
    [strike <= target], and the selection made for the expiration is an
    eligible put of highest strike; under the covered call strategy the
    target is [round(price * (1 + m/100), 2)], the eligible quotes are the
    calls with [strike >= target], and the selection is an eligible call of
    lowest strike; when no quote is eligible nothing is selected; an
    expiration without a selection, or whose selection raises, is passed over
    without an error, the rows collected so far unchanged. *)
Theorem C1_candidate_selector (price : float64) (m : Z) (chain : opt_chain_t)
    (stock : stock_t) (expiration : date_text) :
  ascending_by_strike (puts chain) ->
  ascending_by_strike (calls chain) ->
  option_chain stock expiration = Ok chain ->
  (In m moneyness_choices -> exists fraction, int_truediv m 100 = Ok fraction) /\
  (forall fraction, int_truediv m 100 = Ok fraction ->
     (let target := np_round2 (fmul price (fsub (of_int 1) fraction)) in
      let eligible := List.filter (fun q => fle (strike q) target) (puts chain) in
      target_strike CSP price m = Ok target /\
      options_filtered CSP (options_of CSP chain) target = eligible /\
      select_candidate CSP m stock price expiration = Ok (selected CSP eligible) /\
      match selected CSP eligible with
      | Some sel =>
          In sel eligible /\
          forall q, In q eligible -> fle (strike q) (strike sel) = true
      | None => eligible = []
      end /\
      (eligible = [] -> select_candidate CSP m stock price expiration = Ok None)) /\
     (let target := np_round2 (fmul price (fadd (of_int 1) fraction)) in
      let eligible := List.filter (fun q => fle target (strike q)) (calls chain) in
      target_strike CC price m = Ok target /\
      options_filtered CC (options_of CC chain) target = eligible /\
      select_candidate CC m stock price expiration = Ok (selected CC eligible) /\
      match selected CC eligible with
      | Some sel =>
          In sel eligible /\
          forall q, In q eligible -> fle (strike sel) (strike q) = true
      | None => eligible = []
      end /\
      (eligible = [] -> select_candidate CC m stock price expiration = Ok None))) /\
  (forall strategy now ticker inf rows,
     select_candidate strategy m stock price expiration = Ok None \/
     (exists x, select_candidate strategy m stock price expiration = Raise x) ->
     try_except
       (expiration_body now strategy m ticker stock inf price rows expiration)
       (fun _ => Ok rows) = Ok rows).
Proof.
  intros Hputs Hcalls Hchain. split; [apply moneyness_choices_divide|]. split.
  - intros fraction Hfraction. split.
    + intros target eligible.
      assert (Htarget : target_strike CSP price m = Ok target).
      { apply (target_strike_eq CSP), Hfraction. }
      assert (Hsel : select_candidate CSP m stock price expiration =
                     Ok (selected CSP eligible)).
      { apply (select_candidate_eq CSP _ _ _ _ chain target Hchain Htarget). }
      split; [exact Htarget|]. split; [reflexivity|]. split; [exact Hsel|]. split.
      * apply selected_put, Hputs.
      * intros Hempty. rewrite Hsel, Hempty. reflexivity.
    + intros target eligible.
      assert (Htarget : target_strike CC price m = Ok target).
      { apply (target_strike_eq CC), Hfraction. }
      assert (Hsel : select_candidate CC m stock price expiration =
                     Ok (selected CC eligible)).
      { apply (select_candidate_eq CC _ _ _ _ chain target Hchain Htarget). }
      split; [exact Htarget|]. split; [reflexivity|]. split; [exact Hsel|]. split.
      * apply selected_call, Hcalls.
      * intros Hempty. rewrite Hsel, Hempty. reflexivity.
  - intros strategy now ticker inf rows. apply no_candidate_skipped.
Qed.

(** ** Return on investment *)

Lemma Qlt_bool_ext (a b : Q) :
  ((a < 0)%Q <-> (b < 0)%Q) -> Qlt_bool a 0 = Qlt_bool b 0.
Proof.
  intros H. apply eq_true_iff_eq. rewrite !Qlt_bool_iff. exact H.
Qed.

Lemma Qeq_bool_pos (s : Q) : (0 < s)%Q -> Qeq_bool s 0 = false.
Proof.
  intros Hs. destruct (Qeq_bool s 0) eqn:E; [|reflexivity].
  apply Qeq_bool_iff in E. rewrite E in Hs. now apply Qlt_irrefl in Hs.
Qed.

Lemma inject_Z_pos (d : Z) : (0 < d)%Z -> (0 < inject_Z d)%Q.
Proof. intros Hd. change 0%Q with (inject_Z 0). now rewrite <- Zlt_Qlt. Qed.

(** The sign of a quotient by, and of a product with, a positive number. *)
Lemma Qlt_bool_div_pos (p s : Q) :
  (0 < s)%Q -> Qlt_bool (p / s) 0 = Qlt_bool p 0.
Proof.
  intros Hs. apply Qlt_bool_ext. split; intros H.
  - apply Qnot_le_lt. intros Hp. apply (Qlt_not_le _ _ H).
    apply Qle_shift_div_l; [exact Hs|]. now rewrite Qmult_0_l.
  - apply Qlt_shift_div_r; [exact Hs|]. now rewrite Qmult_0_l.
Qed.

Lemma Qlt_bool_mult_pos (v c : Q) :
  (0 < c)%Q -> Qlt_bool (v * c) 0 = Qlt_bool v 0.
Proof.
  intros Hc. apply Qlt_bool_ext. split; intros H.
  - apply Qnot_le_lt. intros Hv. apply (Qlt_not_le _ _ H).
    apply Qmult_le_0_compat; [exact Hv|]. now apply Qlt_le_weak.
  - rewrite <- (Qmult_0_l c). apply Qmult_lt_compat_r; assumption.
Qed.

(** The quotient of two floats by a positive divisor, and the product of a
    float with a positive factor, are the floats nearest to the exact
    results. *)
Lemma fdiv_finite (p s : Q) : (0 < s)%Q -> fdiv (FVal p) (FVal s) = rnd (p / s).
Proof.
  intros Hs. unfold fdiv, rnd. simpl.
  rewrite Qeq_bool_pos by exact Hs. simpl.
  rewrite (Qlt_bool_nonneg s) by now apply Qlt_le_weak.
  now rewrite xorb_false_r, Qlt_bool_div_pos.
Qed.

Lemma fmul_finite (v c : Q) : (0 < c)%Q -> fmul (FVal v) (FVal c) = rnd (v * c).
Proof.
  intros Hc. unfold fmul, rnd. simpl.
  rewrite (Qlt_bool_nonneg c) by now apply Qlt_le_weak.
  now rewrite xorb_false_r, Qlt_bool_mult_pos.
Qed.

Lemma of_int_100 : of_int 100 = FVal 100.
Proof. vm_compute. reflexivity. Qed.

(** C2. Return-on-investment calculator.  For every selected quote whose
    strike is a positive number and every expiration and instant, hence every
    integer number of days to expiration: the values computed are those of
    the quote selected; the absolute return is [premium / strike * 100] in
    float arithmetic, that is, for a finite premium, the float nearest to 100
    times the float nearest to the quotient of premium and strike; the
    annualized return is [abs_roi / days * 365] in float arithmetic when the
    days to expiration are positive, and the integer 0 when they are zero or
    negative. *)
Theorem C2_roi_calculator (sel : quote) (expiration : date_text) (now : datetime)
    (s : Q) :
  strike sel = FVal s -> (0 < s)%Q ->
  let mt := compute_metrics sel expiration now in
  let d := days_to_exp_of expiration now in
  m_strike_price mt = strike sel /\
  m_premium mt = premium_of sel /\
  m_days_to_exp mt = d /\
  m_abs_roi mt = fmul (fdiv (premium_of sel) (strike sel)) (of_int 100) /\
  (forall p, premium_of sel = FVal p ->
     fdiv (premium_of sel) (strike sel) = rnd (p / s) /\
     forall v, rnd (p / s) = FVal v -> m_abs_roi mt = rnd (v * 100)) /\
  ((0 < d)%Z ->
     m_ann_roi mt = VFloat (fmul (fdiv (m_abs_roi mt) (of_int d)) (of_int 365))) /\
  ((d <= 0)%Z -> m_ann_roi mt = VInt 0).
Proof.
  intros Hstrike Hs mt d. subst mt d. unfold compute_metrics.
  cbn [m_strike_price m_premium m_days_to_exp m_abs_roi m_ann_roi].
  repeat match goal with |- _ /\ _ => split end; try reflexivity.
  - intros p Hp. unfold abs_roi_of.
    rewrite Hp, Hstrike, fdiv_finite by exact Hs.
    split; [reflexivity|]. intros v Hv.
    rewrite Hv, of_int_100. apply fmul_finite. reflexivity.
  - intros Hd. unfold ann_roi_of.
    destruct (Z.gtb_spec (days_to_exp_of expiration now) 0) as [_|Hle]; [|lia].
    reflexivity.
  - intros Hd. unfold ann_roi_of.
    destruct (Z.gtb_spec (days_to_exp_of expiration now) 0) as [Hgt|_]; [lia|].
    reflexivity.
Qed.

(** ** Premium *)

(** With a bid and an ask that are numbers other than zero the premium is
    their mean in float arithmetic; with a bid or an ask equal to zero it is
    the last price. *)
Lemma premium_rule (sel : quote) :
  (forall b a, bid sel = FVal b -> ask sel = FVal a -> ~ (b == 0)%Q -> ~ (a == 0)%Q ->
     premium_of sel = fdiv (fadd (FVal b) (FVal a)) (of_int 2)) /\
  (truthy (bid sel) = false -> premium_of sel = lastPrice sel) /\
  (truthy (ask sel) = false -> premium_of sel = lastPrice sel).
Proof.
  unfold premium_of. split; [|split].
  - intros b a -> -> Hb Ha. simpl.
    destruct (Qeq_bool b 0) eqn:Eb; [now apply Qeq_bool_iff in Eb|].
    destruct (Qeq_bool a 0) eqn:Ea; [now apply Qeq_bool_iff in Ea|].
    reflexivity.
  - intros ->. reflexivity.
  - intros ->. now rewrite andb_false_r.
Qed.

(** ** Expiration generator *)

(** The date of the first Friday on or after the date of [today]. *)
Lemma first_friday_spec (today : datetime) :
  let first := (dt_day today + (4 - weekday today) mod 7)%Z in
  (dt_day today <= first < dt_day today + 7)%Z /\
  weekday (strptime_ymd first) = 4%Z.
Proof.
  intros first. subst first. unfold weekday, strptime_ymd. simpl.
  pose proof (Z.mod_pos_bound (dt_day today + 6) 7 ltac:(lia)) as Hw.
  pose proof (Z.mod_pos_bound (4 - (dt_day today + 6) mod 7) 7 ltac:(lia)) as Ho.
  split; [lia|].
  rewrite (Z.add_comm (dt_day today)), <- Z.add_assoc, Zplus_mod_idemp_l.
  replace (4 - (dt_day today + 6) mod 7 + (dt_day today + 6))%Z
    with (4 + (dt_day today + 6 - (dt_day today + 6) mod 7))%Z by lia.
  rewrite (Z.div_mod (dt_day today + 6) 7) at 1 by lia.
  replace (4 + (7 * ((dt_day today + 6) / 7) + (dt_day today + 6) mod 7
                - (dt_day today + 6) mod 7))%Z
    with (4 + ((dt_day today + 6) / 7) * 7)%Z by lia.
  now rewrite Z.mod_add by lia.
Qed.

Lemma get_weekly_expirations_eq (n : Z) (today : datetime) :
  get_weekly_expirations n today =
  map (fun i => (dt_day today + (4 - weekday today) mod 7 + 7 * i)%Z) (range n).
Proof.
  unfold get_weekly_expirations. apply map_ext. intros i.
  unfold strftime_ymd, add_days. simpl. lia.
Qed.

Lemma range_lookup (n : Z) (i : nat) :
  (Z.of_nat i < n)%Z -> range n !! i = Some (Z.of_nat i).
Proof.
  intros Hi. unfold range. rewrite list_lookup_fmap.
  rewrite lookup_seq_lt by lia. reflexivity.
Qed.

Lemma range_length (n : Z) : length (range n) = Z.to_nat n.
Proof. unfold range. now rewrite length_map, length_seq. Qed.

Lemma weekly_sorted (c : Z) (k a : nat) :
  StronglySorted Z.lt (map (fun i => (c + 7 * i)%Z) (map Z.of_nat (seq a k))).
Proof.
  revert a. induction k as [|k IH]; intros a; simpl; constructor.
  - apply IH.
  - rewrite List.Forall_forall. intros x Hx.
    apply in_map_iff in Hx as [i [<- Hi]].
    apply in_map_iff in Hi as [j [<- Hj]].
    apply in_seq in Hj. lia.
Qed.

Lemma strictly_ascending_NoDup (l : list Z) : StronglySorted Z.lt l -> NoDup l.
Proof.
  induction 1 as [|a l Hl IH Ha]; constructor; auto.
  intros Hin. rewrite List.Forall_forall in Ha.
  apply list_elem_of_In, Ha in Hin. lia.
Qed.

Lemma weekday_shift (d i : Z) :
  weekday (strptime_ymd (d + 7 * i)%Z) = weekday (strptime_ymd d).
Proof.
  unfold weekday, strptime_ymd. simpl.
  replace (d + 7 * i + 6)%Z with (d + 6 + i * 7)%Z by lia.
  now rewrite Z.mod_add by lia.
Qed.

(** C6. Expiration generator.  For every count [n >= 0] and every reference
    instant [today] the output has exactly [n] dates; date [i] is the first
    Friday on or after today, [today + ((4 - weekday(today)) mod 7)] days,
    plus [7 * i] days; the sequence is strictly ascending and free of
    duplicates, every date is a Friday, and the output depends on the date of
    [today] alone. *)
Theorem C6_expiration_generator (n : Z) (today : datetime) :
  (0 <= n)%Z ->
  let first := (dt_day today + (4 - weekday today) mod 7)%Z in
  let out := get_weekly_expirations n today in
  Z.of_nat (length out) = n /\
  (forall i : nat, (Z.of_nat i < n)%Z -> out !! i = Some (first + 7 * Z.of_nat i)%Z) /\
  ((dt_day today <= first < dt_day today + 7)%Z /\ weekday (strptime_ymd first) = 4%Z) /\
  StronglySorted Z.lt out /\
  NoDup out /\
  Forall (fun e => weekday (strptime_ymd e) = 4%Z) out /\
  (forall today', dt_day today' = dt_day today -> get_weekly_expirations n today' = out).
Proof.
  intros Hn first out.
  assert (Hout : out = map (fun i => (first + 7 * i)%Z) (range n)).
  { apply get_weekly_expirations_eq. }
  assert (Hsorted : StronglySorted Z.lt out).
  { rewrite Hout. apply weekly_sorted. }
  split; [|split; [|split; [|split; [|split; [|split]]]]].
  - rewrite Hout, length_map, range_length. lia.
  - intros i Hi. rewrite Hout, list_lookup_fmap, range_lookup by exact Hi.
    reflexivity.
  - apply first_friday_spec.
  - exact Hsorted.
  - now apply strictly_ascending_NoDup.
  - rewrite Hout. apply List.Forall_forall. intros e He.
    apply in_map_iff in He as [i [<- _]].
    rewrite weekday_shift. apply first_friday_spec.
  - intros today' Hday. subst out. unfold get_weekly_expirations, weekday.
    rewrite Hday. apply map_ext. intros i. unfold strftime_ymd, add_days. simpl.
    now rewrite Hday.
Qed.

(** ** The loops and their failure handling *)

Section Loops.

Variable yf_Ticker : string -> exc stock_t.
Variable now : datetime.
Variables (strategy : string) (m : Z) (min_price max_price : float64).

Lemma expiration_body_acc ticker stock inf price acc e :
  expiration_body now strategy m ticker stock inf price acc e =
  match expiration_body now strategy m ticker stock inf price [] e with
  | Ok rows => Ok (acc ++ rows)
  | Raise x => Raise x
  end.
Proof.
  unfold expiration_body.
  destruct (select_candidate strategy m stock price e) as [[sel|]|x]; simpl;
    [|now rewrite app_nil_r|reflexivity].
  destruct (make_row _ _ _ _ _ _) as [r|x]; reflexivity.
Qed.

Lemma expiration_step ticker stock inf price acc e :
  try_except (expiration_body now strategy m ticker stock inf price acc e)
             (fun _ => Ok acc) =
  Ok (acc ++ rows_of_expiration now strategy m ticker stock inf price e).
Proof.
  rewrite expiration_body_acc. unfold rows_of_expiration.
  destruct (expiration_body now strategy m ticker stock inf price [] e); simpl;
    [reflexivity|].
  now rewrite app_nil_r.
Qed.

Lemma expirations_loop_rows ticker stock inf price es acc :
  expirations_loop now strategy m ticker stock inf price es acc =
  Ok (acc ++ flat_map (rows_of_expiration now strategy m ticker stock inf price) es).
Proof.
  revert acc. induction es as [|e es IH]; intros acc; simpl.
  - now rewrite app_nil_r.
  - unfold mret, exc_ret. rewrite expiration_step. simpl.
    rewrite IH. now rewrite <- app_assoc.
Qed.

Lemma analyze_options_rows ticker es :
  analyze_options yf_Ticker now strategy m min_price max_price ticker es =
  Ok (rows_of_ticker yf_Ticker now strategy m min_price max_price es ticker).
Proof.
  unfold rows_of_ticker, analyze_options.
  destruct (analyze_options_body _ _ _ _ _ _ _ _); reflexivity.
Qed.

Lemma ticker_loop_rows ts es acc :
  ticker_loop yf_Ticker now strategy m min_price max_price ts es acc =
  Ok (acc ++ flat_map (rows_of_ticker yf_Ticker now strategy m min_price max_price es) ts).
Proof.
  revert acc. induction ts as [|t ts IH]; intros acc; simpl.
  - now rewrite app_nil_r.
  - rewrite analyze_options_rows. simpl.
    rewrite IH. now rewrite <- app_assoc.
Qed.

(** A failure before the loop over the expirations empties the ticker. *)
Lemma fetch_failure_no_rows ticker es :
  (exists x, yf_Ticker ticker = Raise x) \/
  (exists stock x, yf_Ticker ticker = Ok stock /\
     (info stock = Raise x \/ history_close stock = Raise x)) \/
  (exists stock, yf_Ticker ticker = Ok stock /\ history_close stock = Ok []) ->
  analyze_options yf_Ticker now strategy m min_price max_price ticker es = Ok [].
Proof.
  unfold analyze_options, analyze_options_body.
  intros [[x ->]|[(stock & x & -> & [Hi|Hh])|(stock & -> & Hh)]]; simpl.
  - reflexivity.
  - now rewrite Hi.
  - rewrite Hh. now destruct (info stock).
  - rewrite Hh. now destruct (info stock).
Qed.

End Loops.

Lemma flat_map_skip {A B : Type} (f : A -> list B) (l1 l2 : list A) (a : A) :
  f a = [] -> flat_map f (l1 ++ a :: l2) = flat_map f (l1 ++ l2).
Proof. intros H. rewrite !flat_map_app. simpl. now rewrite H. Qed.

(** C7. Failure isolation.  For every gateway, ticker list and expiration
    list: the loop over the tickers returns a table and never raises; a ticker
    whose data fetch fails (the gateway object, the fundamentals or the price
    history raise, or the history is empty) yields no rows, and the table is
    the one obtained without that ticker; the loop over the expirations never
    raises, an expiration whose option chain cannot be fetched, or whose
    processing raises anywhere, yields no rows, and the rows of the ticker are
    those obtained without that expiration. *)
Theorem C7_failure_isolation (yf_Ticker : string -> exc stock_t) (now : datetime)
    (strategy : string) (m : Z) (min_price max_price : float64)
    (expirations : list date_text) :
  let analyze := analyze_options yf_Ticker now strategy m min_price max_price in
  let tloop := ticker_loop yf_Ticker now strategy m min_price max_price in
  let eloop := expirations_loop now strategy m in
  (forall tickers, exists rows, tloop tickers expirations [] = Ok rows) /\
  (forall ticker, exists rows, analyze ticker expirations = Ok rows) /\
  (forall ticker,
     (exists x, yf_Ticker ticker = Raise x) \/
     (exists stock x, yf_Ticker ticker = Ok stock /\
        (info stock = Raise x \/ history_close stock = Raise x)) \/
     (exists stock, yf_Ticker ticker = Ok stock /\ history_close stock = Ok []) ->
     analyze ticker expirations = Ok []) /\
  (forall ts1 ticker ts2,
     analyze ticker expirations = Ok [] ->
     tloop (ts1 ++ ticker :: ts2) expirations [] = tloop (ts1 ++ ts2) expirations []) /\
  (forall ticker stock inf price es acc,
     exists rows, eloop ticker stock inf price es acc = Ok (acc ++ rows)) /\
  (forall ticker stock inf price es1 e es2 acc,
     (exists x, option_chain stock e = Raise x) \/
     (exists x, expiration_body now strategy m ticker stock inf price [] e = Raise x) ->
     eloop ticker stock inf price (es1 ++ e :: es2) acc =
     eloop ticker stock inf price (es1 ++ es2) acc).
Proof.
  intros analyze tloop eloop. subst analyze tloop eloop.
  split; [|split; [|split; [|split; [|split]]]].
  - intros tickers. rewrite ticker_loop_rows. eauto.
  - intros ticker. rewrite analyze_options_rows. eauto.
  - intros ticker. apply fetch_failure_no_rows.
  - intros ts1 ticker ts2 Hempty. rewrite !ticker_loop_rows. f_equal. f_equal.
    apply flat_map_skip. unfold rows_of_ticker. now rewrite Hempty.
  - intros ticker stock inf price es acc. rewrite expirations_loop_rows. eauto.
  - intros ticker stock inf price es1 e es2 acc Hfail.
    rewrite !expirations_loop_rows. f_equal. f_equal.
    apply flat_map_skip. unfold rows_of_expiration.
    destruct Hfail as [[x Hx]|[x Hx]].
    + unfold expiration_body, select_candidate. now rewrite Hx.
    + now rewrite Hx.
Qed.

(** ** Days to expiration *)

Lemma timedelta_days_midnight (e : date_text) (now : datetime) :
  valid_datetime now ->
  timedelta_days (strptime_ymd e) now =
  (e - dt_day now - (if (dt_us now =? 0)%Z then 0 else 1))%Z.
Proof.
  unfold valid_datetime, timedelta_days, strptime_ymd. simpl. intros Hus.
  assert (Hu : (0 < us_per_day)%Z) by reflexivity.
  rewrite Z.div_add_l by lia.
  destruct (Z.eqb_spec (dt_us now) 0) as [->|Hne].
  - rewrite Z.sub_diag, Z.div_0_l by lia. lia.
  - replace ((0 - dt_us now) / us_per_day)%Z with (-1)%Z; [lia|].
    apply (Z.div_unique_pos _ _ _ (us_per_day - dt_us now)); lia.
Qed.

Lemma range_lookup_inv (n : Z) (i : nat) (x : Z) :
  range n !! i = Some x -> x = Z.of_nat i.
Proof.
  unfold range. rewrite list_lookup_fmap.
  destruct (seq 0 (Z.to_nat n) !! i) as [k|] eqn:Hk; [|discriminate].
  apply lookup_seq in Hk as [-> _]. simpl. now intros [= <-].
Qed.

Lemma friday_offset (w : Z) :
  (0 <= w < 7)%Z ->
  (0 <= (4 - w) mod 7 < 7)%Z /\
  (w = 4 -> (4 - w) mod 7 = 0)%Z /\
  (w <> 3 -> w <> 4 -> 2 <= (4 - w) mod 7)%Z.
Proof.
  intros Hw.
  assert (Hc : (w = 0 \/ w = 1 \/ w = 2 \/ w = 3 \/ w = 4 \/ w = 5 \/ w = 6)%Z) by lia.
  destruct Hc as [->|[->|[->|[->|[->|[->| ->]]]]]];
    repeat split; try (intros; lia); try (intros; reflexivity); try discriminate.
Qed.

(** C9 (as the code has it).  For every expiration produced by the generator
    at [today] and every instant [now] of the same day at which the return is
    computed: the days to expiration are the days from today's date to the
    expiration date, less one unless [now] is midnight sharp, so at least -1;
    they are positive for every expiration but the first, and for the first
    one whenever today is neither a Thursday nor a Friday; on a Friday the
    first expiration is today, the days to expiration are not positive and the
    annualized return takes the fallback 0. *)
Theorem C9_days_to_expiration (n : Z) (today now : datetime) (i : nat) (e : date_text) :
  valid_datetime now ->
  dt_day now = dt_day today ->
  get_weekly_expirations n today !! i = Some e ->
  let d := days_to_exp_of e now in
  d = ((4 - weekday today) mod 7 + 7 * Z.of_nat i
       - (if (dt_us now =? 0)%Z then 0 else 1))%Z /\
  (-1 <= d)%Z /\
  ((1 <= i)%nat -> (0 < d)%Z) /\
  (weekday today <> 3%Z -> weekday today <> 4%Z -> (0 < d)%Z) /\
  (weekday today = 4%Z -> i = 0%nat ->
     (d <= 0)%Z /\ forall abs_roi, ann_roi_of abs_roi d = VInt 0).
Proof.
  intros Hnow Hday Hlook d.
  rewrite get_weekly_expirations_eq, list_lookup_fmap in Hlook.
  destruct (range n !! i) as [x|] eqn:Hx; [|discriminate].
  apply range_lookup_inv in Hx as ->. simpl in Hlook. injection Hlook as <-.
  assert (Hd : d = ((4 - weekday today) mod 7 + 7 * Z.of_nat i
                    - (if (dt_us now =? 0)%Z then 0 else 1))%Z).
  { subst d. unfold days_to_exp_of. rewrite timedelta_days_midnight by exact Hnow.
    rewrite Hday. lia. }
  assert (Hw : (0 <= weekday today < 7)%Z).
  { unfold weekday. apply Z.mod_pos_bound. lia. }
  destruct (friday_offset _ Hw) as (Hoff & Hfri & Hfar).
  assert (Hc : (0 <= (if (dt_us now =? 0)%Z then 0 else 1) <= 1)%Z).
  { destruct (dt_us now =? 0)%Z; lia. }
  split; [exact Hd|]. split; [lia|]. split; [lia|]. split.
  - intros H3 H4. specialize (Hfar H3 H4). lia.
  - intros H4 ->. specialize (Hfri H4).
    assert (Hle : (d <= 0)%Z) by lia.
    split; [exact Hle|]. intros abs_roi. unfold ann_roi_of.
    destruct (Z.gtb_spec d 0); [lia|reflexivity].
Qed.

(** ** Row assembly *)

Lemma fmt_zero : fmt (VFloat (FVal 0)) = VStr "0.00".
Proof. reflexivity. Qed.


(** ** Stored cells *)

Lemma round_half_even_cents (n : Z) : round_half_even ((n # 100) * 100) = n.
Proof.
  unfold round_half_even. simpl Qnum. simpl Qden.
  change (Z.pos (100 * 1)) with 100%Z.
  rewrite Z.div_mul, Z.mod_mul by lia. reflexivity.
Qed.

(** The text stored for a non-negative number is the text of its rounding to
    two decimal places: the cell keeps no further digit. *)
Lemma format_2f_round2 (q : Q) :
  (0 <= q)%Q -> format_2f (FVal q) = format_2f (round2 (FVal q)).
Proof.
  intros Hq. simpl. unfold format_2f_Q.
  rewrite round_half_even_cents.
  assert (Hr : (0 <= round_half_even (q * 100))%Z).
  { apply round_half_even_nonneg. apply Qmult_le_0_compat; [exact Hq|]. discriminate. }
  rewrite (Qlt_bool_nonneg q Hq).
  rewrite Qlt_bool_nonneg; [reflexivity|].
  unfold Qle. simpl. lia.
Qed.

Lemma make_row_cells (ticker strategy : string) (inf : gmap string pyval)
    (price : float64) (e : date_text) (mt : metrics) (r : row) :
  make_row ticker strategy inf price e mt = Ok r ->
  Current_Price r = VStr (format_2f price) /\
  Strike_Price r = VStr (format_2f (m_strike_price mt)) /\
  Premium r = VStr (format_2f (m_premium mt)) /\
  Abs_ROI r = VStr (format_2f (m_abs_roi mt)) /\
  Ann_ROI r = fmt (m_ann_roi mt) /\
  Days_to_Exp r = m_days_to_exp mt /\
  Expiration r = e.
Proof.
  unfold make_row.
  destruct (py_mul_int _ _) as [dy|x]; [|discriminate].
  destruct (py_gt_int _ _) as [gr|x]; [|discriminate].
  simpl. intros [= <-]. simpl. repeat split; reflexivity.
Qed.

Lemma rows_of_expiration_made (now : datetime) (strategy : string) (m : Z)
    (ticker : string) (stock : stock_t) (inf : gmap string pyval)
    (price : float64) (e : date_text) (r : row) :
  In r (rows_of_expiration now strategy m ticker stock inf price e) ->
  exists sel,
    select_candidate strategy m stock price e = Ok (Some sel) /\
    make_row ticker strategy inf price e (compute_metrics sel e now) = Ok r.
Proof.
  unfold rows_of_expiration, expiration_body.
  destruct (select_candidate strategy m stock price e) as [[sel|]|x]; simpl;
    try contradiction.
  destruct (make_row _ _ _ _ _ _) as [r'|x] eqn:Hrow; simpl; [|contradiction].
  intros [<-|[]]. exists sel. split; [reflexivity|exact Hrow].
Qed.

Lemma analyze_options_made (yf_Ticker : string -> exc stock_t) (now : datetime)
    (strategy : string) (m : Z) (min_price max_price : float64)
    (ticker : string) (expirations : list date_text) (rows : list row) (r : row) :
  analyze_options yf_Ticker now strategy m min_price max_price ticker expirations
    = Ok rows ->
  In r rows ->
  exists stock inf price e sel,
    yf_Ticker ticker = Ok stock /\ info stock = Ok inf /\ In e expirations /\
    select_candidate strategy m stock price e = Ok (Some sel) /\
    make_row ticker strategy inf price e (compute_metrics sel e now) = Ok r.
Proof.
  unfold analyze_options, analyze_options_body.
  destruct (yf_Ticker ticker) as [stock|x] eqn:Hstock; simpl; [|intros [= <-] []].
  destruct (info stock) as [inf|x] eqn:Hinf; simpl; [|intros [= <-] []].
  destruct (history_close stock) as [hist|x]; simpl; [|intros [= <-] []].
  destruct (iloc_last hist) as [price|x]; simpl; [|intros [= <-] []].
  destruct (flt price min_price || flt max_price price); [intros [= <-] []|].
  rewrite expirations_loop_rows. simpl. intros [= <-] Hin.
  apply in_flat_map in Hin as (e & He & Hr).
  apply rows_of_expiration_made in Hr as (sel & Hsel & Hrow).
  exists stock, inf, price, e, sel. repeat split; assumption || reflexivity.
Qed.

(** Where a row comes from: the last close of its ticker, within the price
    bounds, and the quote selected in the chain of its expiration. *)
Lemma analyze_options_origin (yf_Ticker : string -> exc stock_t) (now : datetime)
    (strategy : string) (m : Z) (min_price max_price : float64)
    (ticker : string) (expirations : list date_text) (rows : list row) (r : row) :
  analyze_options yf_Ticker now strategy m min_price max_price ticker expirations
    = Ok rows ->
  In r rows ->
  exists stock inf hist price chain target sel,
    yf_Ticker ticker = Ok stock /\ info stock = Ok inf /\
    history_close stock = Ok hist /\ iloc_last hist = Ok price /\
    flt price min_price = false /\ flt max_price price = false /\
    In (Expiration r) expirations /\
    option_chain stock (Expiration r) = Ok chain /\
    target_strike strategy price m = Ok target /\
    selected strategy (options_filtered strategy (options_of strategy chain) target)
      = Some sel /\
    make_row ticker strategy inf price (Expiration r)
      (compute_metrics sel (Expiration r) now) = Ok r.
Proof.
  unfold analyze_options, analyze_options_body.
  destruct (yf_Ticker ticker) as [stock|x] eqn:Hstock; simpl; [|intros [= <-] []].
  destruct (info stock) as [inf|x] eqn:Hinf; simpl; [|intros [= <-] []].
  destruct (history_close stock) as [hist|x] eqn:Hhist; simpl; [|intros [= <-] []].
  destruct (iloc_last hist) as [price|x] eqn:Hlast; cbn [mbind exc_bind];
    [|intros [= <-] []].
  destruct (flt price min_price || flt max_price price) eqn:Hrange;
    [intros [= <-] []|].
  apply orb_false_iff in Hrange as [Hlo Hhi].
  rewrite expirations_loop_rows. simpl. intros [= <-] Hin.
  apply in_flat_map in Hin as (e & He & Hr).
  apply rows_of_expiration_made in Hr as (sel & Hsel & Hrow).
  destruct (make_row_cells _ _ _ _ _ _ _ Hrow) as (_ & _ & _ & _ & _ & _ & Hexp).
  unfold select_candidate in Hsel.
  destruct (option_chain stock e) as [chain|x] eqn:Hchain; [|discriminate].
  cbn [mbind exc_bind] in Hsel.
  destruct (target_strike strategy price m) as [target|x] eqn:Htarget;
    [|discriminate].
  cbn [mbind exc_bind mret exc_ret] in Hsel. injection Hsel as Hsel.
  exists stock, inf, hist, price, chain, target, sel. rewrite Hexp.
  repeat match goal with |- _ /\ _ => split end;
    try assumption; reflexivity.
Qed.

Lemma xyz_rows :
  analyze_options xyz_gateway tuesday_afternoon CSP 5 (FVal 50) (FVal 500) "XYZ"
    [december_4] = Ok [xyz_row].
Proof. vm_compute. reflexivity. Defined.

(** C5 (as the code has it).  Every row of the table stores the last close of
    its ticker, and the strike, the premium and the two returns of the quote
    selected in the chain of its expiration, as the text of the computed
    value formatted to two decimal places, the formatting being applied when
    the row is assembled; the returns are percentages
    ([premium / strike * 100]); the text of a non-negative value is the text
    of its rounding to two decimals, so the stored cell keeps no further
    digit of the computed value. *)
Theorem C5_stored_cells (yf_Ticker : string -> exc stock_t) (now : datetime)
    (strategy : string) (m : Z) (min_price max_price : float64)
    (ticker : string) (expirations : list date_text) (rows : list row) (r : row) :
  analyze_options yf_Ticker now strategy m min_price max_price ticker expirations
    = Ok rows ->
  In r rows ->
  (exists stock hist price chain target sel,
     yf_Ticker ticker = Ok stock /\ history_close stock = Ok hist /\
     iloc_last hist = Ok price /\
     option_chain stock (Expiration r) = Ok chain /\
     target_strike strategy price m = Ok target /\
     selected strategy (options_filtered strategy (options_of strategy chain) target)
       = Some sel /\
     let abs_roi := fmul (fdiv (premium_of sel) (strike sel)) (of_int 100) in
     Current_Price r = VStr (format_2f price) /\
     Strike_Price r = VStr (format_2f (strike sel)) /\
     Premium r = VStr (format_2f (premium_of sel)) /\
     Abs_ROI r = VStr (format_2f abs_roi) /\
     Ann_ROI r = fmt (ann_roi_of abs_roi (Days_to_Exp r))) /\
  (exists s, Ann_ROI r = VStr s) /\
  (forall q, (0 <= q)%Q -> format_2f (FVal q) = format_2f (round2 (FVal q))).
Proof.
  intros Hrows Hin.
  destruct (analyze_options_origin _ _ _ _ _ _ _ _ _ _ Hrows Hin)
    as (stock & inf & hist & price & chain & target & sel
        & Hstock & _ & Hhist & Hlast & _ & _ & _ & Hchain & Htarget & Hsel & Hrow).
  apply make_row_cells in Hrow as (Hp & Hs & Hpr & Ha & Hn & Hd & _).
  cbn [compute_metrics m_strike_price m_premium m_days_to_exp m_abs_roi m_ann_roi]
    in Hs, Hpr, Ha, Hn, Hd.
  rewrite <- Hd in Hn.
  split; [|split].
  - exists stock, hist, price, chain, target, sel.
    repeat match goal with |- _ /\ _ => split end; try assumption.
    cbv zeta. auto.
  - rewrite Hn. unfold ann_roi_of.
    destruct (_ >? 0)%Z; simpl; eauto.
  - apply format_2f_round2.
Qed.

Lemma C5_witness :
  exists sel,
    selected CSP (options_filtered CSP (options_of CSP xyz_chain) (FVal 95)) = Some sel /\
    Current_Price xyz_row = VStr (format_2f (FVal 100)) /\
    Premium xyz_row = VStr (format_2f (premium_of sel)) /\
    Abs_ROI xyz_row =
      VStr (format_2f (fmul (fdiv (premium_of sel) (strike sel)) (of_int 100))).
Proof.
  destruct (C5_stored_cells xyz_gateway tuesday_afternoon CSP 5
              (FVal 50) (FVal 500) "XYZ" [december_4] [xyz_row] xyz_row
              xyz_rows (or_introl eq_refl))
    as ((stock & hist & price & chain & target & sel
         & Hstock & Hhist & Hlast & Hchain & Htarget & Hsel
         & Hp & _ & Hpr & Ha & _) & _ & _).
  injection Hstock as <-. injection Hhist as <-. injection Hlast as <-.
  injection Hchain as <-.
  assert (Ht : target_strike CSP (FVal 100) 5 = Ok (FVal 95)) by (vm_compute; reflexivity).
  rewrite Ht in Htarget. injection Htarget as <-.
  exists sel. split; [exact Hsel|]. split; [exact Hp|]. split; [exact Hpr|exact Ha].
Defined.

(** C5, as stated, fails: two quotes whose premiums differ, 2.125 and 2.12,
    are stored with the same premium cell, so the row does not carry the
    computed value. *)
Lemma C5_counterexample :
  ~ (forall (sel1 sel2 : quote) (r1 r2 : row),
       make_row "XYZ" CSP ∅ (FVal 100) december_4
         (compute_metrics sel1 december_4 tuesday_afternoon) = Ok r1 ->
       make_row "XYZ" CSP ∅ (FVal 100) december_4
         (compute_metrics sel2 december_4 tuesday_afternoon) = Ok r2 ->
       Premium r1 = Premium r2 ->
       feq (premium_of sel1) (premium_of sel2)).
Proof.
  intros H.
  specialize (H fine_quote coarse_quote _ _ eq_refl eq_refl eq_refl).
  vm_compute in H. discriminate H.
Qed.

(** ** End-to-end example *)

(** C8 (as the code has it).  For the ticker XYZ at price 100, the
    cash-secured put strategy, moneyness 5, puts at the strikes 90, 95 and
    100 with bid 2.00 and ask 2.20, and 30 days to expiration: the target
    strike is 95.00, the put of strike 95 is selected, the premium is the
    float 2.10, the absolute return is the float next to 42/19 percent,
    2.2105 to four decimals, and the annualized return is the float next to
    511/19 percent, 26.89 to two decimals; the row stores the texts 2.21 and
    26.89. *)
Theorem C8_end_to_end :
  let price := FVal 100 in
  let mt := compute_metrics (xyz_quote 95) december_4 tuesday_afternoon in
  iloc_last [FVal 99; FVal 100] = Ok price /\
  (exists target, target_strike CSP price 5 = Ok target /\ feq target (FVal 95)) /\
  select_candidate CSP 5 xyz_stock price december_4 = Ok (Some (xyz_quote 95)) /\
  m_premium mt = dbl 2.10 /\
  m_days_to_exp mt = 30%Z /\
  (exists a, m_abs_roi mt = FVal a /\
     (Qabs (a - (42 # 19)) <= 1 # 1000000000000000)%Q /\
     round_half_even (a * 10000) = 22105%Z) /\
  (exists n, m_ann_roi mt = VFloat (FVal n) /\
     (Qabs (n - (511 # 19)) <= 1 # 100000000000000)%Q /\
     round_half_even (n * 100) = 2689%Z) /\
  exists r,
    analyze_options xyz_gateway tuesday_afternoon CSP 5 (FVal 50) (FVal 500)
      "XYZ" [december_4] = Ok [r] /\
    Current_Price r = VStr "100.00" /\ Strike_Price r = VStr "95.00" /\
    Premium r = VStr "2.10" /\ Days_to_Exp r = 30%Z /\
    Abs_ROI r = VStr "2.21" /\ Ann_ROI r = VStr "26.89".
Proof.
  intros price mt.
  repeat match goal with |- _ /\ _ => split end;
    try (vm_compute; reflexivity).
  - eexists. split; [vm_compute; reflexivity|]. vm_compute. reflexivity.
  - eexists. split; [vm_compute; reflexivity|].
    split; [vm_compute; discriminate|vm_compute; reflexivity].
  - eexists. split; [vm_compute; reflexivity|].
    split; [vm_compute; discriminate|vm_compute; reflexivity].
  - eexists. split; [vm_compute; reflexivity|].
    repeat split; reflexivity.
Qed.

(** C8, as stated, fails: on its input the returns do not round to 2.1053 and
    25.61. *)
Lemma C8_counterexample :
  let mt := compute_metrics (xyz_quote 95) december_4 tuesday_afternoon in
  ~ (exists a n,
       m_abs_roi mt = FVal a /\ m_ann_roi mt = VFloat (FVal n) /\
       round_half_even (a * 10000) = 21053%Z /\
       round_half_even (n * 100) = 2561%Z).
Proof.
  intros mt (a & n & Ha & _ & Ra & _).
  vm_compute in Ha. injection Ha as <-.
  vm_compute in Ra. discriminate Ra.
Qed.

(** ** Days to expiration on a Friday *)

(** C9, as stated, fails: on Friday 2026-11-06 at 10:00 the generator produces
    that same Friday, whose days to expiration are -1. *)
Lemma C9_counterexample :
  ~ (forall (n : Z) (today now : datetime) (e : date_text),
       valid_datetime today -> valid_datetime now ->
       dt_day now = dt_day today ->
       In e (get_weekly_expirations n today) ->
       (0 < days_to_exp_of e now)%Z).
Proof.
  intros H.
  specialize (H 8%Z friday_morning friday_morning 739926%Z).
  assert (Hv : valid_datetime friday_morning) by (vm_compute; split; congruence).
  specialize (H Hv Hv eq_refl (or_introl eq_refl)).
  vm_compute in H. discriminate H.
Qed.

Lemma C9_witness :
  valid_datetime tuesday_afternoon /\
  get_weekly_expirations 8 tuesday_afternoon !! 1%nat = Some 739933%Z /\
  (0 < days_to_exp_of 739933%Z tuesday_afternoon)%Z.
Proof.
  assert (Hv : valid_datetime tuesday_afternoon) by (vm_compute; split; congruence).
  assert (Hl : get_weekly_expirations 8 tuesday_afternoon !! 1%nat = Some 739933%Z)
    by reflexivity.
  split; [exact Hv|]. split; [exact Hl|].
  exact (proj1 (proj2 (proj2
    (C9_days_to_expiration 8 tuesday_afternoon tuesday_afternoon 1 739933%Z
       Hv eq_refl Hl))) (le_n 1)).
Defined.

(** ** Premium of a quote without a bid *)

(** C3 at a quote whose bid is missing (NaN in the chain table): the missing
    bid passes the truth test, the premium is NaN rather than the last price,
    and the row of the table stores the text nan. *)
Theorem C3_premium_missing_bid :
  truthy (bid unbid_quote) = true /\
  premium_of unbid_quote = FNaN /\
  ~ feq (premium_of unbid_quote) (lastPrice unbid_quote) /\
  exists r,
    analyze_options (fun _ => Ok unbid_stock) tuesday_afternoon CSP 5
      (FVal 50) (FVal 500) "XYZ" [december_4] = Ok [r] /\
    Premium r = VStr "nan" /\ Abs_ROI r = VStr "nan" /\ Ann_ROI r = VStr "nan".
Proof.
  split; [reflexivity|]. split; [reflexivity|]. split.
  - vm_compute. tauto.
  - eexists. split; [vm_compute; reflexivity|]. repeat split; reflexivity.
Qed.

(** ** Ordering of the table *)

Lemma insert_desc_perm (r : row) (l : list row) :
  Permutation (r :: l) (insert_desc r l).
Proof.
  induction l as [|x l IH]; simpl; [reflexivity|].
  destruct (String.ltb _ _); [|reflexivity].
  rewrite perm_swap. now apply perm_skip.
Qed.

(** The table shown holds the rows collected, each once. *)
Lemma sort_values_desc_perm (df : list row) : Permutation df (sort_values_desc df).
Proof.
  induction df as [|r df IH]; simpl; [reflexivity|].
  rewrite <- insert_desc_perm. now apply perm_skip.
Qed.




(** C4 on a run of Tuesday 2026-11-03 for the ticker XYZ: the eight rows have
    the annualized returns 403.42, 89.65, 50.43, ... in the order met; the
    table shown lists 89.65 and 50.43 before 403.42, the order of the texts
    and not of the numbers. *)
Theorem C4_sorted_as_text :
  exists rows table,
    ticker_loop xyz_gateway tuesday_afternoon CSP 5 (FVal 50) (FVal 500) ["XYZ"%string]
      (get_weekly_expirations 8 tuesday_afternoon) [] = Ok rows /\
    map Ann_ROI rows =
      map VStr ["403.42"; "89.65"; "50.43"; "35.08"; "26.89"; "21.81"; "18.34"; "15.82"]%string /\
    run xyz_gateway tuesday_afternoon tuesday_afternoon CSP 5 (FVal 50) (FVal 500)
      ["XYZ"%string] = Ok (Some table) /\
    map Ann_ROI table =
      map VStr ["89.65"; "50.43"; "403.42"; "35.08"; "26.89"; "21.81"; "18.34"; "15.82"]%string /\
    map Days_to_Exp table = [9; 16; 2; 23; 30; 37; 44; 51]%Z.
Proof.
  eexists. eexists.
  split; [vm_compute; reflexivity|].
  split; [reflexivity|].
  split; [vm_compute; reflexivity|].
  split; reflexivity.
Qed.

(** ** The statements at the sample data *)

Lemma C1_witness :
  ascending_by_strike (puts xyz_chain) /\
  ascending_by_strike (calls xyz_chain) /\
  option_chain xyz_stock december_4 = Ok xyz_chain /\
  int_truediv 5 100 = Ok (dbl 0.05) /\
  target_strike CSP (FVal 100) 5 = Ok (FVal 95) /\
  target_strike CC (FVal 100) 5 = Ok (FVal 105) /\
  select_candidate CSP 5 xyz_stock (FVal 100) december_4 = Ok (Some (xyz_quote 95)) /\
  select_candidate CC 5 xyz_stock (FVal 100) december_4 = Ok (Some (xyz_quote 105)).
Proof.
  assert (Hputs : ascending_by_strike (puts xyz_chain)).
  { repeat constructor; vm_compute; reflexivity. }
  assert (Hcalls : ascending_by_strike (calls xyz_chain)).
  { repeat constructor; vm_compute; reflexivity. }
  assert (Hchain : option_chain xyz_stock december_4 = Ok xyz_chain) by reflexivity.
  assert (Hfraction : int_truediv 5 100 = Ok (dbl 0.05)) by (vm_compute; reflexivity).
  split; [exact Hputs|]. split; [exact Hcalls|]. split; [exact Hchain|].
  split; [exact Hfraction|].
  destruct (C1_candidate_selector (FVal 100) 5 xyz_chain xyz_stock december_4
              Hputs Hcalls Hchain) as (_ & Hsel & _).
  destruct (Hsel (dbl 0.05) Hfraction)
    as ((Htp & _ & Hput & _) & (Htc & _ & Hcall & _)).
  split; [rewrite Htp; vm_compute; reflexivity|].
  split; [rewrite Htc; vm_compute; reflexivity|].
  split; [rewrite Hput; vm_compute; reflexivity|].
  rewrite Hcall. vm_compute. reflexivity.
Defined.

Lemma C2_witness :
  let mt := compute_metrics eighth_quote december_4 tuesday_afternoon in
  strike eighth_quote = FVal 50 /\ (0 < 50)%Q /\
  premium_of eighth_quote = FVal (109 # 16) /\
  rnd ((109 # 16) / 50) = FVal (4908923593833841 # 36028797018963968) /\
  m_abs_roi mt = rnd ((4908923593833841 # 36028797018963968) * 100) /\
  m_abs_roi mt = FVal (7670193115365377 # 562949953421312) /\
  format_2f (m_abs_roi mt) = "13.63"%string /\
  format_2f (FVal ((109 # 16) / 50 * 100)) = "13.62"%string.
Proof.
  intros mt. subst mt.
  assert (Hs : strike eighth_quote = FVal 50) by reflexivity.
  assert (Hp : (0 < 50)%Q) by reflexivity.
  assert (Hpr : premium_of eighth_quote = FVal (109 # 16)) by (vm_compute; reflexivity).
  assert (Hv : rnd ((109 # 16) / 50) = FVal (4908923593833841 # 36028797018963968))
    by (vm_compute; reflexivity).
  destruct (C2_roi_calculator eighth_quote december_4 tuesday_afternoon 50 Hs Hp)
    as (_ & _ & _ & _ & Habs & _).
  destruct (Habs (109 # 16) Hpr) as [_ Hroi]. specialize (Hroi _ Hv).
  split; [exact Hs|]. split; [exact Hp|]. split; [exact Hpr|]. split; [exact Hv|].
  split; [exact Hroi|].
  split; [rewrite Hroi; vm_compute; reflexivity|].
  split; [rewrite Hroi; vm_compute; reflexivity|].
  vm_compute. reflexivity.
Defined.

Lemma C6_witness :
  (0 <= 8)%Z /\
  Z.of_nat (length (get_weekly_expirations 8 tuesday_afternoon)) = 8%Z.
Proof.
  assert (Hn : (0 <= 8)%Z) by discriminate.
  split; [exact Hn|].
  exact (proj1 (C6_expiration_generator 8 tuesday_afternoon Hn)).
Defined.

Lemma C7_witness :
  (exists x, xyz_gateway "AAPL" = Raise x) /\
  analyze_options xyz_gateway tuesday_afternoon CSP 5 (FVal 50) (FVal 500) "AAPL"
    (get_weekly_expirations 8 tuesday_afternoon) = Ok [].
Proof.
  assert (Hfail : exists x, xyz_gateway "AAPL" = Raise x).
  { exists (FetchError "no data"). reflexivity. }
  split; [exact Hfail|].
  exact (proj1 (proj2 (proj2
    (C7_failure_isolation xyz_gateway tuesday_afternoon CSP 5 (FVal 50) (FVal 500)
       (get_weekly_expirations 8 tuesday_afternoon)))) "AAPL"%string (or_introl Hfail)).
Defined.


(** * Further properties of the code *)

(** ** The order of texts *)

Lemma ascii_compare_refl (c : ascii) : Ascii.compare c c = Eq.
Proof. unfold Ascii.compare. apply N.compare_refl. Qed.

Lemma ascii_compare_lt_trans (a b c : ascii) :
  Ascii.compare a b = Lt -> Ascii.compare b c = Lt -> Ascii.compare a c = Lt.
Proof. unfold Ascii.compare. rewrite !N.compare_lt_iff. lia. Qed.

Lemma string_compare_refl (s : string) : String.compare s s = Eq.
Proof.
  induction s as [|c s IH]; simpl; [reflexivity|].
  now rewrite ascii_compare_refl.
Qed.

Lemma string_lt_irrefl (s : string) : ~ string_lt s s.
Proof. unfold string_lt. now rewrite string_compare_refl. Qed.

Lemma string_lt_trans (s t u : string) :
  string_lt s t -> string_lt t u -> string_lt s u.
Proof.
  unfold string_lt. revert t u.
  induction s as [|a s IH]; intros [|b t] [|c u]; simpl; try congruence.
  destruct (Ascii.compare a b) eqn:Eab; try discriminate;
    destruct (Ascii.compare b c) eqn:Ebc; try discriminate; intros Hst Htu.
  - apply Ascii.compare_eq_iff in Eab, Ebc. subst.
    rewrite ascii_compare_refl. eauto.
  - apply Ascii.compare_eq_iff in Eab. subst. now rewrite Ebc.
  - apply Ascii.compare_eq_iff in Ebc. subst. now rewrite Eab.
  - now rewrite (ascii_compare_lt_trans a b c).
Qed.

Lemma string_compare_gt (s t : string) :
  String.compare s t = Gt -> string_lt t s.
Proof.
  unfold string_lt. rewrite (String.compare_antisym t s).
  now destruct (String.compare s t).
Qed.

Lemma string_lt_asym (s t : string) : string_lt s t -> ~ string_lt t s.
Proof.
  intros Hst Hts. apply (string_lt_irrefl s). now apply (string_lt_trans s t s).
Qed.

(** The empty text is below every other text. *)
Lemma empty_least (s : string) : s = EmptyString \/ string_lt EmptyString s.
Proof. destruct s; [now left|now right]. Qed.

(** ** Sorted sets of texts *)

Lemma insert_sorted_In (s x : string) (l : list string) :
  In x (insert_sorted s l) <-> x = s \/ In x l.
Proof.
  induction l as [|y l IH]; simpl; [intuition congruence|].
  destruct (String.compare s y) eqn:E; simpl.
  - apply String.compare_eq_iff in E. subst. intuition congruence.
  - intuition congruence.
  - rewrite IH. intuition congruence.
Qed.

Lemma insert_sorted_sorted (s : string) (l : list string) :
  StronglySorted string_lt l -> StronglySorted string_lt (insert_sorted s l).
Proof.
  induction 1 as [|y l Hl IH Hy]; simpl.
  - repeat constructor.
  - destruct (String.compare s y) eqn:E.
    + now constructor.
    + constructor; [now constructor|].
      constructor; [exact E|].
      rewrite List.Forall_forall in *. intros z Hz.
      apply (string_lt_trans s y z); [exact E|auto].
    + constructor; [exact IH|].
      rewrite List.Forall_forall in *. intros z Hz.
      apply insert_sorted_In in Hz as [->|Hz]; [|auto].
      now apply string_compare_gt.
Qed.

Lemma sorted_set_In (l : list string) (x : string) : In x (sorted_set l) <-> In x l.
Proof.
  induction l as [|s l IH]; simpl; [tauto|].
  rewrite insert_sorted_In, IH. intuition congruence.
Qed.

Lemma sorted_set_sorted (l : list string) : StronglySorted string_lt (sorted_set l).
Proof.
  induction l as [|s l IH]; simpl; [constructor|].
  now apply insert_sorted_sorted.
Qed.

(** Two ascending lists with the same members are the same list. *)
Lemma ascending_unique (l1 l2 : list string) :
  StronglySorted string_lt l1 -> StronglySorted string_lt l2 ->
  (forall x, In x l1 <-> In x l2) -> l1 = l2.
Proof.
  intros H1. revert l2. induction H1 as [|a l1 Hl1 IH Ha]; intros l2 H2 Hsame.
  - destruct l2 as [|b l2]; [reflexivity|].
    destruct (proj2 (Hsame b)). now left.
  - destruct H2 as [|b l2 Hl2 Hb].
    + destruct (proj1 (Hsame a)). now left.
    + rewrite List.Forall_forall in Ha, Hb.
      assert (a = b) as <-.
      { destruct (proj1 (Hsame a) (or_introl eq_refl)) as [E|Hin]; [now symmetry|].
        destruct (proj2 (Hsame b) (or_introl eq_refl)) as [E|Hin']; [exact E|].
        destruct (string_lt_asym a b); auto. }
      f_equal. apply IH; [exact Hl2|]. intros x. split; intros Hx.
      * destruct (proj1 (Hsame x) (or_intror Hx)) as [<-|Hin]; [|exact Hin].
        destruct (string_lt_irrefl a). auto.
      * destruct (proj2 (Hsame x) (or_intror Hx)) as [<-|Hin]; [|exact Hin].
        destruct (string_lt_irrefl a). auto.
Qed.

Lemma ascending_NoDup (l : list string) : StronglySorted string_lt l -> NoDup l.
Proof.
  induction 1 as [|a l Hl IH Ha]; constructor; auto.
  intros Hin. rewrite List.Forall_forall in Ha.
  apply list_elem_of_In, Ha in Hin. now apply string_lt_irrefl in Hin.
Qed.

(** ** Stripping and upper-casing *)

Lemma upper_char_idem (c : ascii) : upper_char (upper_char c) = upper_char c.
Proof. destruct c as [[] [] [] [] [] [] [] []]; reflexivity. Qed.

Lemma is_space_upper_char (c : ascii) : is_space (upper_char c) = is_space c.
Proof. destruct c as [[] [] [] [] [] [] [] []]; reflexivity. Qed.

Lemma upper_idem (s : string) : upper (upper s) = upper s.
Proof.
  induction s as [|c s IH]; simpl; [reflexivity|].
  now rewrite upper_char_idem, IH.
Qed.

Lemma lstrip_upper (s : string) : lstrip (upper s) = upper (lstrip s).
Proof.
  induction s as [|c s IH]; simpl; [reflexivity|].
  rewrite is_space_upper_char. now destruct (is_space c).
Qed.

Lemma upper_empty (s : string) : upper s = EmptyString -> s = EmptyString.
Proof. now destruct s. Qed.

Lemma rstrip_upper (s : string) : rstrip (upper s) = upper (rstrip s).
Proof.
  induction s as [|c s IH]; simpl; [reflexivity|].
  rewrite IH, is_space_upper_char.
  destruct (rstrip s) as [|d r]; simpl; [|reflexivity].
  now destruct (is_space c).
Qed.

Lemma strip_upper (s : string) : strip (upper s) = upper (strip s).
Proof. unfold strip. now rewrite lstrip_upper, rstrip_upper. Qed.

Lemma rstrip_idem (s : string) : rstrip (rstrip s) = rstrip s.
Proof.
  induction s as [|c s IH]; simpl; [reflexivity|].
  destruct (rstrip s) as [|d r] eqn:E.
  - destruct (is_space c) eqn:Ec; simpl; [reflexivity|]. now rewrite Ec.
  - change (rstrip (String c (String d r))) with
      (match rstrip (String d r) with
       | EmptyString => if is_space c then EmptyString else String c EmptyString
       | r' => String c r'
       end).
    now rewrite IH.
Qed.

(** A stripped text does not begin with a blank. *)
Lemma lstrip_rstrip_lstrip (s : string) : lstrip (rstrip (lstrip s)) = rstrip (lstrip s).
Proof.
  induction s as [|c s IH]; simpl; [reflexivity|].
  destruct (is_space c) eqn:Ec; [exact IH|].
  simpl. destruct (rstrip s); rewrite ?Ec; simpl; now rewrite Ec.
Qed.

Lemma strip_idem (s : string) : strip (strip s) = strip s.
Proof. unfold strip. now rewrite lstrip_rstrip_lstrip, rstrip_idem. Qed.

(** A stripped text does not end with a blank either: stripping any side
    again changes nothing. *)
Lemma strip_fixed (s : string) :
  lstrip (strip s) = strip s /\ rstrip (strip s) = strip s.
Proof.
  unfold strip. split; [apply lstrip_rstrip_lstrip|apply rstrip_idem].
Qed.

(** ** The ticker list *)

(** X1. The tickers offered are the distinct members of [all_stocks] in strictly
    ascending order of code points; the nine built-in tickers are always
    among them, whatever the user types. *)
Theorem unique_stocks_sorted_set (additional_tickers : string) :
  StronglySorted string_lt (unique_stocks additional_tickers) /\
  NoDup (unique_stocks additional_tickers) /\
  (forall t, In t (unique_stocks additional_tickers) <->
             In t (all_stocks additional_tickers)) /\
  (forall t, In t (magnificent7 ++ etfs) -> In t (unique_stocks additional_tickers)).
Proof.
  unfold unique_stocks.
  split; [apply sorted_set_sorted|].
  split; [apply ascending_NoDup, sorted_set_sorted|].
  split; [intros t; apply sorted_set_In|].
  intros t Ht. apply sorted_set_In. unfold all_stocks.
  destruct additional_tickers; [exact Ht|]. apply in_or_app. now left.
Qed.

Lemma unique_stocks_same_members (a1 a2 : string) :
  (forall t, In t (all_stocks a1) <-> In t (all_stocks a2)) ->
  unique_stocks a1 = unique_stocks a2.
Proof.
  intros Hsame. unfold unique_stocks.
  apply ascending_unique; try apply sorted_set_sorted.
  intros x. rewrite !sorted_set_In. apply Hsame.
Qed.

(** X2. The list of tickers depends on the texts typed only through the set of
    their stripped, upper-cased forms: their order, their repetitions, their
    letter case and the blanks around them are immaterial.  In particular
    typing tickers that are already built in leaves the list as it is. *)
Theorem unique_stocks_canonical :
  (forall a1 a2,
     (forall t, In t (all_stocks a1) <-> In t (all_stocks a2)) ->
     unique_stocks a1 = unique_stocks a2) /\
  (forall additional_tickers,
     (forall t, In t (split "," additional_tickers) ->
                In (upper (strip t)) (magnificent7 ++ etfs)) ->
     unique_stocks additional_tickers = unique_stocks "").
Proof.
  split; [exact unique_stocks_same_members|].
  intros additional_tickers Hin.
  apply unique_stocks_same_members. intros t. unfold all_stocks.
  destruct additional_tickers as [|c r]; [reflexivity|].
  rewrite in_app_iff, in_map_iff. split; [|tauto].
  intros [H|(u & <- & Hu)]; [exact H|]. now apply Hin.
Qed.

Lemma unique_stocks_canonical_witness :
  unique_stocks " aapl ,Msft,AAPL" = unique_stocks "MSFT,aapl" /\
  unique_stocks " aapl ,Msft" = unique_stocks "".
Proof.
  split.
  - apply (proj1 unique_stocks_canonical). intros t. vm_compute. tauto.
  - apply (proj2 unique_stocks_canonical). intros t Ht.
    vm_compute in Ht. destruct Ht as [<-|[<-|[]]]; vm_compute; tauto.
Defined.

(** X3. Every ticker of the list is built in or is the stripped, upper-cased form
    of a text typed between commas; such a form is stable: stripping it or
    upper-casing it again gives it back. *)
Theorem unique_stocks_normal (additional_tickers t : string) :
  In t (unique_stocks additional_tickers) ->
  In t (magnificent7 ++ etfs) \/
  (exists typed, In typed (split "," additional_tickers) /\
                 t = upper (strip typed) /\
                 strip t = t /\ upper t = t /\
                 lstrip t = t /\ rstrip t = t).
Proof.
  intros Ht. unfold unique_stocks in Ht.
  apply (proj1 (sorted_set_In _ _)) in Ht. unfold all_stocks in Ht.
  destruct additional_tickers as [|c r]; [left; exact Ht|].
  apply in_app_iff in Ht as [Ht|Ht]; [left; exact Ht|right].
  apply in_map_iff in Ht as (typed & <- & Htyped).
  exists typed. split; [exact Htyped|]. split; [reflexivity|].
  rewrite <- !strip_upper.
  split; [apply strip_idem|].
  split; [now rewrite upper_idem|].
  apply strip_fixed.
Qed.

Lemma unique_stocks_normal_witness :
  In "IBM"%string (magnificent7 ++ etfs) \/
  (exists typed, In typed (split "," " ibm ,x") /\
                 "IBM"%string = upper (strip typed) /\
                 strip "IBM" = "IBM"%string /\ upper "IBM" = "IBM"%string /\
                 lstrip "IBM" = "IBM"%string /\ rstrip "IBM" = "IBM"%string).
Proof.
  apply (unique_stocks_normal " ibm ,x" "IBM").
  vm_compute. tauto.
Defined.

Lemma split_trailing (sep : ascii) (s : string) :
  exists l, l <> [] /\
    split sep (String.append s (String sep EmptyString)) = l ++ [EmptyString].
Proof.
  induction s as [|c s (l & Hl & IH)]; simpl.
  - rewrite Ascii.eqb_refl. now exists [EmptyString].
  - rewrite IH. destruct (Ascii.eqb c sep).
    + now exists (EmptyString :: l).
    + destruct l as [|h t]; [contradiction|]. now exists (String c h :: t).
Qed.

Lemma ascending_head_empty (l : list string) :
  StronglySorted string_lt l -> In EmptyString l -> head l = Some EmptyString.
Proof.
  intros Hs Hin. destruct l as [|h t]; [contradiction|]. simpl.
  destruct Hin as [->|Hin]; [reflexivity|].
  apply StronglySorted_inv in Hs as [_ Hall].
  rewrite List.Forall_forall in Hall. specialize (Hall _ Hin).
  destruct h; [reflexivity|discriminate Hall].
Qed.

(** X4. A text between commas that is empty or blank is not dropped: it puts the
    empty ticker symbol in the list, at its head since the empty text is the
    least; a trailing comma is enough. *)
Theorem empty_ticker_listed :
  (forall additional_tickers typed,
     additional_tickers <> EmptyString ->
     In typed (split "," additional_tickers) -> strip typed = EmptyString ->
     head (unique_stocks additional_tickers) = Some EmptyString /\
     In EmptyString (tickers_list additional_tickers)) /\
  (forall s,
     head (unique_stocks (String.append s ",")) = Some EmptyString).
Proof.
  assert (Hgen : forall a typed, a <> EmptyString ->
            In typed (split "," a) -> strip typed = EmptyString ->
            head (unique_stocks a) = Some EmptyString).
  { intros a typed Hne Hin Hstrip.
    apply ascending_head_empty; [apply sorted_set_sorted|].
    apply sorted_set_In. unfold all_stocks.
    destruct a as [|c r]; [contradiction|].
    apply in_or_app. right. apply in_map_iff. exists typed.
    split; [|exact Hin]. now rewrite Hstrip. }
  split.
  - intros a typed Hne Hin Hstrip.
    pose proof (Hgen a typed Hne Hin Hstrip) as Hhead.
    split; [exact Hhead|]. unfold tickers_list. right.
    destruct (unique_stocks a); [discriminate|].
    injection Hhead as ->. now left.
  - intros s. destruct (split_trailing "," s) as (l & _ & Hl).
    apply (Hgen _ EmptyString).
    + destruct s; discriminate.
    + rewrite Hl. apply in_or_app. right. now left.
    + reflexivity.
Qed.

Lemma empty_ticker_listed_witness :
  head (unique_stocks "AAPL, ,IBM") = Some EmptyString /\
  In EmptyString (tickers_list "AAPL, ,IBM").
Proof.
  apply (proj1 empty_ticker_listed "AAPL, ,IBM"%string " "%string).
  - discriminate.
  - vm_compute. tauto.
  - reflexivity.
Defined.

(** X5. Whatever entry of the select box is chosen, the tickers processed are
    tickers of the list, each once: all of them for ALL, the chosen one
    otherwise. *)
Theorem tickers_to_process_listed (additional_tickers selected_stock : string) :
  In selected_stock (tickers_list additional_tickers) ->
  let ts := tickers_to_process selected_stock (unique_stocks additional_tickers) in
  (forall t, In t ts -> In t (unique_stocks additional_tickers)) /\
  NoDup ts /\
  (selected_stock = "ALL"%string -> ts = unique_stocks additional_tickers) /\
  (selected_stock <> "ALL"%string -> ts = [selected_stock]).
Proof.
  intros Hsel ts. subst ts. unfold tickers_to_process.
  destruct (String.eqb_spec selected_stock "ALL") as [->|Hne].
  - split; [auto|]. split; [apply ascending_NoDup, sorted_set_sorted|].
    split; congruence.
  - destruct Hsel as [E|Hin]; [congruence|].
    split; [intros t [<-|[]]; exact Hin|].
    split; [repeat constructor; intros H; inversion H|]. split; congruence.
Qed.

Lemma tickers_to_process_listed_witness :
  In "SPY"%string (tickers_list "ibm") /\
  tickers_to_process "SPY" (unique_stocks "ibm") = ["SPY"%string].
Proof.
  assert (Hin : In "SPY"%string (tickers_list "ibm")) by (vm_compute; tauto).
  split; [exact Hin|].
  apply (proj2 (proj2 (proj2 (tickers_to_process_listed "ibm" "SPY" Hin)))).
  discriminate.
Defined.

(** ** The price filter *)

(** X6. A ticker whose last close is below the minimum or above the maximum gives
    no row and fetches no option chain; the two bounds themselves are in
    range: a last close from the minimum to the maximum, both included, goes
    on to the loop over the expirations. *)
Theorem price_filter (yf_Ticker : string -> exc stock_t) (now : datetime)
    (strategy : string) (m : Z) (lo hi p : Q) (ticker : string)
    (expirations : list date_text) (stock : stock_t) (inf : gmap string pyval)
    (hist : list float64) :
  yf_Ticker ticker = Ok stock -> info stock = Ok inf ->
  history_close stock = Ok hist -> iloc_last hist = Ok (FVal p) ->
  ((p < lo \/ hi < p)%Q ->
     analyze_options yf_Ticker now strategy m (FVal lo) (FVal hi) ticker expirations
       = Ok []) /\
  ((lo <= p <= hi)%Q ->
     analyze_options yf_Ticker now strategy m (FVal lo) (FVal hi) ticker expirations
       = expirations_loop now strategy m ticker stock inf (FVal p) expirations []).
Proof.
  intros Hstock Hinf Hhist Hlast.
  unfold analyze_options, analyze_options_body.
  rewrite Hstock. simpl. rewrite Hinf. simpl. rewrite Hhist. simpl.
  rewrite Hlast. simpl. split.
  - intros Hout.
    assert (E : Qlt_bool p lo || Qlt_bool hi p = true).
    { apply orb_true_iff. rewrite !Qlt_bool_iff. exact Hout. }
    now rewrite E.
  - intros [Hlo Hhi].
    assert (E : Qlt_bool p lo || Qlt_bool hi p = false).
    { apply orb_false_iff. unfold Qlt_bool.
      apply Qle_bool_iff in Hlo, Hhi. now rewrite Hlo, Hhi. }
    rewrite E. rewrite expirations_loop_rows. reflexivity.
Qed.

Lemma price_filter_witness :
  analyze_options xyz_gateway tuesday_afternoon CSP 5 (FVal 100) (FVal 500) "XYZ"
    [december_4] =
  expirations_loop tuesday_afternoon CSP 5 "XYZ" xyz_stock ∅ (FVal 100) [december_4] [].
Proof.
  refine (proj2 (price_filter xyz_gateway tuesday_afternoon CSP 5 100 500 100 "XYZ"
                   [december_4] xyz_stock ∅ [FVal 99; FVal 100]
                   eq_refl eq_refl eq_refl eq_refl) _).
  split; discriminate.
Defined.

Lemma filter_none {A : Type} (f : A -> bool) (l : list A) :
  (forall x, f x = false) -> List.filter f l = [].
Proof.
  intros Hf. induction l as [|x l IH]; simpl; [reflexivity|]. now rewrite Hf.
Qed.

Lemma fle_nan_r (x : float64) : fle x FNaN = false.
Proof. now destruct x as [|[]| |]. Qed.

Lemma fle_nan_l (x : float64) : fle FNaN x = false.
Proof. reflexivity. Qed.

(** The target strike of a price that is NaN is NaN, when it is computed at
    all. *)
Lemma target_strike_nan (strategy : string) (m : Z) (target : float64) :
  target_strike strategy FNaN m = Ok target -> target = FNaN.
Proof.
  unfold target_strike. destruct (int_truediv m 100) as [fraction|x]; simpl;
    [|discriminate].
  destruct (is_csp strategy); now intros [= <-].
Qed.

(** X7. A last close that is NaN passes the price filter, every comparison with
    NaN being false, yet gives no row: the target strike is NaN and no quote
    is eligible. *)
Theorem nan_price_no_rows (yf_Ticker : string -> exc stock_t) (now : datetime)
    (strategy : string) (m : Z) (min_price max_price : float64) (ticker : string)
    (expirations : list date_text) (stock : stock_t) (hist : list float64) :
  yf_Ticker ticker = Ok stock -> history_close stock = Ok hist ->
  iloc_last hist = Ok FNaN ->
  flt FNaN min_price || flt max_price FNaN = false /\
  analyze_options yf_Ticker now strategy m min_price max_price ticker expirations
    = Ok [].
Proof.
  intros Hstock Hhist Hlast.
  assert (Hflt : flt FNaN min_price || flt max_price FNaN = false).
  { now destruct max_price as [|[]| |]. }
  split; [exact Hflt|].
  unfold analyze_options, analyze_options_body.
  rewrite Hstock. simpl. destruct (info stock) as [inf|x]; simpl; [|reflexivity].
  rewrite Hhist. simpl. rewrite Hlast. cbn [mbind exc_bind]. rewrite Hflt.
  rewrite expirations_loop_rows. simpl. f_equal.
  induction expirations as [|e es IH]; simpl; [reflexivity|].
  rewrite IH, app_nil_r. unfold rows_of_expiration, expiration_body, select_candidate.
  destruct (option_chain stock e) as [chain|x]; simpl; [|reflexivity].
  destruct (target_strike strategy FNaN m) as [target|x] eqn:Htarget; simpl;
    [|reflexivity].
  apply target_strike_nan in Htarget as ->.
  unfold options_filtered, selected.
  destruct (is_csp strategy); rewrite filter_none; try reflexivity;
    intros q; first [apply fle_nan_r|apply fle_nan_l].
Qed.

Lemma nan_price_no_rows_witness :
  analyze_options (fun _ => Ok nan_stock)
    tuesday_afternoon CSP 5 (FVal 50) (FVal 500) "XYZ" [december_4] = Ok [].
Proof.
  exact (proj2 (nan_price_no_rows (fun _ => Ok nan_stock) tuesday_afternoon CSP 5
                  (FVal 50) (FVal 500) "XYZ" [december_4] nan_stock
                  [FVal 100; FNaN] eq_refl eq_refl eq_refl)).
Defined.

(** ** Where the rows come from *)

Lemma make_row_keys (ticker strategy : string) (inf : gmap string pyval)
    (price : float64) (e : date_text) (mt : metrics) (r : row) :
  make_row ticker strategy inf price e mt = Ok r ->
  Ticker r = ticker /\ Strategy r = strategy /\ Expiration r = e /\
  Days_to_Exp r = m_days_to_exp mt.
Proof.
  unfold make_row.
  destruct (py_mul_int _ _) as [dy|x]; [|discriminate].
  destruct (py_gt_int _ _) as [gr|x]; [|discriminate].
  simpl. intros [= <-]. simpl. repeat split; reflexivity.
Qed.

Lemma selected_eligible (strategy : string) (options : list quote)
    (target : float64) (sel : quote) :
  selected strategy (options_filtered strategy options target) = Some sel ->
  In sel options /\
  (if is_csp strategy then fle (strike sel) target else fle target (strike sel)) = true.
Proof.
  unfold selected, options_filtered. destruct (is_csp strategy); intros H.
  - apply head_rev_in, List.filter_In in H. exact H.
  - apply head_in, List.filter_In in H. exact H.
Qed.

(** X8. Every row of a ticker comes from a quote of the requested side, puts for
    the cash-secured put strategy and calls otherwise, that satisfies the
    moneyness bound, [strike <= target] for a put and [strike >= target] for
    a call, in whatever order the chain lists its strikes; the last close of
    the ticker is neither below the minimum nor above the maximum price. *)
Theorem rows_from_eligible_quotes (yf_Ticker : string -> exc stock_t) (now : datetime)
    (strategy : string) (m : Z) (min_price max_price : float64)
    (ticker : string) (expirations : list date_text) (rows : list row) (r : row) :
  analyze_options yf_Ticker now strategy m min_price max_price ticker expirations
    = Ok rows ->
  In r rows ->
  exists stock inf hist price chain target sel,
    yf_Ticker ticker = Ok stock /\ info stock = Ok inf /\
    history_close stock = Ok hist /\ iloc_last hist = Ok price /\
    flt price min_price = false /\ flt max_price price = false /\
    In (Expiration r) expirations /\
    option_chain stock (Expiration r) = Ok chain /\
    target_strike strategy price m = Ok target /\
    In sel (if is_csp strategy then puts chain else calls chain) /\
    (if is_csp strategy
     then fle (strike sel) target
     else fle target (strike sel)) = true /\
    make_row ticker strategy inf price (Expiration r)
      (compute_metrics sel (Expiration r) now) = Ok r.
Proof.
  intros Hrows Hin.
  destruct (analyze_options_origin _ _ _ _ _ _ _ _ _ _ Hrows Hin)
    as (stock & inf & hist & price & chain & target & sel
        & Hstock & Hinf & Hhist & Hlast & Hlo & Hhi & He & Hchain & Htarget
        & Hsel & Hrow).
  apply selected_eligible in Hsel as [Hopt Helig].
  exists stock, inf, hist, price, chain, target, sel.
  repeat match goal with |- _ /\ _ => split end; assumption.
Qed.

Lemma rows_from_eligible_quotes_witness :
  exists target sel,
    target_strike CSP (FVal 100) 5 = Ok target /\
    In sel (puts xyz_chain) /\
    fle (strike sel) target = true.
Proof.
  destruct (rows_from_eligible_quotes xyz_gateway tuesday_afternoon CSP 5
              (FVal 50) (FVal 500) "XYZ" [december_4] [xyz_row] xyz_row
              xyz_rows (or_introl eq_refl))
    as (stock & inf & hist & price & chain & target & sel
        & Hs & _ & Hh & Hl & _ & _ & _ & Hc & Ht & Hin & Hel & _).
  injection Hs as <-. injection Hh as <-. injection Hl as <-. injection Hc as <-.
  exists target, sel. split; [exact Ht|]. split; [exact Hin|exact Hel].
Defined.

Lemma rows_of_expiration_shape (now : datetime) (strategy : string) (m : Z)
    (ticker : string) (stock : stock_t) (inf : gmap string pyval)
    (price : float64) (e : date_text) :
  rows_of_expiration now strategy m ticker stock inf price e = [] \/
  exists r, rows_of_expiration now strategy m ticker stock inf price e = [r] /\
            Expiration r = e.
Proof.
  unfold rows_of_expiration, expiration_body.
  destruct (select_candidate strategy m stock price e) as [[sel|]|x]; simpl;
    try (now left).
  destruct (make_row _ _ _ _ _ _) as [r|x] eqn:Hrow; simpl; [|now left].
  right. exists r. split; [reflexivity|]. now apply make_row_keys in Hrow.
Qed.

Lemma expirations_sublist (f : date_text -> list row) (es : list date_text) :
  (forall e, f e = [] \/ exists r, f e = [r] /\ Expiration r = e) ->
  sublist (map Expiration (flat_map f es)) es.
Proof.
  intros Hf. induction es as [|e es IH]; simpl; [constructor|].
  destruct (Hf e) as [->|(r & -> & <-)]; simpl.
  - now apply sublist_cons.
  - now apply sublist_skip.
Qed.

Lemma analyze_options_shape (yf_Ticker : string -> exc stock_t) (now : datetime)
    (strategy : string) (m : Z) (min_price max_price : float64)
    (ticker : string) (expirations : list date_text) :
  exists rows,
    analyze_options yf_Ticker now strategy m min_price max_price ticker expirations
      = Ok rows /\
    sublist (map Expiration rows) expirations /\
    (length rows <= length expirations)%nat /\
    Forall (fun r => Ticker r = ticker /\ Strategy r = strategy /\
                     In (Expiration r) expirations /\
                     Days_to_Exp r = days_to_exp_of (Expiration r) now) rows.
Proof.
  destruct (analyze_options yf_Ticker now strategy m min_price max_price
              ticker expirations) as [rows|x] eqn:Hrows.
  2: { rewrite analyze_options_rows in Hrows. discriminate. }
  exists rows. split; [reflexivity|].
  assert (Hsub : sublist (map Expiration rows) expirations).
  { revert Hrows. unfold analyze_options, analyze_options_body.
    destruct (yf_Ticker ticker) as [stock|x]; simpl;
      [|intros [= <-]; apply sublist_nil_l].
    destruct (info stock) as [inf|x]; simpl; [|intros [= <-]; apply sublist_nil_l].
    destruct (history_close stock) as [hist|x]; simpl;
      [|intros [= <-]; apply sublist_nil_l].
    destruct (iloc_last hist) as [price|x]; cbn [mbind exc_bind];
      [|intros [= <-]; apply sublist_nil_l].
    destruct (flt price min_price || flt max_price price);
      [intros [= <-]; apply sublist_nil_l|].
    rewrite expirations_loop_rows. simpl. intros [= <-].
    apply expirations_sublist. intros e. apply rows_of_expiration_shape. }
  split; [exact Hsub|]. split.
  - apply sublist_length in Hsub. now rewrite length_map in Hsub.
  - apply List.Forall_forall. intros r Hr.
    destruct (analyze_options_made _ _ _ _ _ _ _ _ _ _ Hrows Hr)
      as (stock & inf & price & e & sel & _ & _ & He & _ & Hrow).
    apply make_row_keys in Hrow as (Ht & Hs & Hexp & Hd).
    rewrite Hexp. repeat split; assumption.
Qed.


Lemma flat_map_length_le {A B : Type} (f : A -> list B) (l : list A) (k : nat) :
  (forall a, length (f a) <= k)%nat ->
  (length (flat_map f l) <= length l * k)%nat.
Proof.
  intros Hf. induction l as [|a l IH]; simpl; [lia|].
  rewrite length_app. specialize (Hf a). lia.
Qed.

(** X10. The results of the loop over the tickers are what [analyze_options]
    returns for each ticker, joined in the order of the tickers: the rows of a
    ticker carry its symbol, belong to the expirations given, and number at
    most one for each expiration, so the table has at most one row for each
    pair of a ticker and an expiration. *)
Theorem ticker_loop_groups (yf_Ticker : string -> exc stock_t) (now : datetime)
    (strategy : string) (m : Z) (min_price max_price : float64)
    (tickers : list string) (expirations : list date_text) :
  exists groups,
    ticker_loop yf_Ticker now strategy m min_price max_price tickers expirations []
      = Ok (concat groups) /\
    Forall2 (fun t g =>
               analyze_options yf_Ticker now strategy m min_price max_price t
                 expirations = Ok g /\
               (length g <= length expirations)%nat /\
               Forall (fun r => Ticker r = t /\ In (Expiration r) expirations /\
                                Strategy r = strategy) g)
            tickers groups /\
    (length (concat groups) <= length tickers * length expirations)%nat.
Proof.
  exists (map (rows_of_ticker yf_Ticker now strategy m min_price max_price
                 expirations) tickers).
  assert (Hone : forall t,
    let g := rows_of_ticker yf_Ticker now strategy m min_price max_price
               expirations t in
    analyze_options yf_Ticker now strategy m min_price max_price t expirations
      = Ok g /\
    (length g <= length expirations)%nat /\
    Forall (fun r => Ticker r = t /\ In (Expiration r) expirations /\
                     Strategy r = strategy) g).
  { intros t g.
    destruct (analyze_options_shape yf_Ticker now strategy m min_price max_price
                t expirations) as (rows' & Hrows & _ & Hlen & Hall).
    pose proof Hrows as Hrows'.
    rewrite analyze_options_rows in Hrows'. injection Hrows' as <-.
    split; [exact Hrows|]. split; [exact Hlen|].
    eapply List.Forall_impl; [|exact Hall]. simpl. tauto. }
  split; [|split].
  - rewrite ticker_loop_rows. simpl. now rewrite flat_map_concat_map.
  - induction tickers as [|t ts IH]; simpl; constructor; [apply Hone|exact IH].
  - rewrite <- flat_map_concat_map. apply flat_map_length_le.
    intros t. apply Hone.
Qed.

(** ** More on the expiration generator *)

Lemma range_In (n i : Z) : In i (range n) <-> (0 <= i < n)%Z.
Proof.
  unfold range. rewrite in_map_iff. split.
  - intros (k & <- & Hk). apply in_seq in Hk. lia.
  - intros Hi. exists (Z.to_nat i). split; [lia|]. apply in_seq. lia.
Qed.

Lemma range_succ (n : Z) : (0 <= n)%Z -> range (n + 1) = range n ++ [n].
Proof.
  intros Hn. unfold range.
  replace (Z.to_nat (n + 1)) with (S (Z.to_nat n)) by lia.
  rewrite seq_S, map_app. simpl. f_equal. f_equal. lia.
Qed.

Lemma expirations_in_window (n : Z) (today : datetime) (e : date_text) :
  In e (get_weekly_expirations n today) ->
  (dt_day today <= e < dt_day today + 7 * n)%Z.
Proof.
  intros He. rewrite get_weekly_expirations_eq in He.
  apply in_map_iff in He as (i & <- & Hi). apply range_In in Hi.
  destruct (first_friday_spec today) as [Hfirst _]. simpl in Hfirst. lia.
Qed.

(** X11. A count that is zero or negative gives no date; every date produced lies
    from today on and less than [7 * n] days ahead. *)
Theorem expirations_window (n : Z) (today : datetime) :
  ((n <= 0)%Z -> get_weekly_expirations n today = []) /\
  (forall e, In e (get_weekly_expirations n today) ->
             (dt_day today <= e < dt_day today + 7 * n)%Z).
Proof.
  split.
  - intros Hn. unfold get_weekly_expirations, range.
    now replace (Z.to_nat n) with 0%nat by lia.
  - apply expirations_in_window.
Qed.

(** X12. Asking for one more expiration keeps the dates already produced and adds
    one, a week after the last. *)
Theorem expirations_extend (n : Z) (today : datetime) :
  (0 <= n)%Z ->
  get_weekly_expirations (n + 1) today =
  get_weekly_expirations n today ++
    [(dt_day today + (4 - weekday today) mod 7 + 7 * n)%Z].
Proof.
  intros Hn. rewrite !get_weekly_expirations_eq, range_succ by exact Hn.
  now rewrite map_app.
Qed.

Lemma expirations_extend_witness :
  get_weekly_expirations (8 + 1) tuesday_afternoon =
  get_weekly_expirations 8 tuesday_afternoon ++
    [(dt_day tuesday_afternoon + (4 - weekday tuesday_afternoon) mod 7 + 7 * 8)%Z].
Proof. apply expirations_extend. discriminate. Defined.

Lemma next_day_offset (d : Z) :
  let w := ((d + 6) mod 7)%Z in
  ((4 - (d + 1 + 6) mod 7) mod 7 =
   if (w =? 4)%Z then 6 else (4 - w) mod 7 - 1)%Z.
Proof.
  intros w.
  replace (d + 1 + 6)%Z with (d + 6 + 1)%Z by lia.
  rewrite Zplus_mod. fold w.
  assert (Hw : (0 <= w < 7)%Z) by (apply Z.mod_pos_bound; lia).
  assert (Hc : (w = 0 \/ w = 1 \/ w = 2 \/ w = 3 \/ w = 4 \/ w = 5 \/ w = 6)%Z) by lia.
  destruct Hc as [->|[->|[->|[->|[->|[->| ->]]]]]]; reflexivity.
Qed.

(** X13. From one day to the next the list of expirations stays the same, unless
    the day left is a Friday: then every date moves on by a week. *)
Theorem expirations_next_day (n : Z) (today : datetime) :
  (weekday today <> 4%Z ->
     get_weekly_expirations n (add_days today 1) = get_weekly_expirations n today) /\
  (weekday today = 4%Z ->
     get_weekly_expirations n (add_days today 1) =
     map (fun e => (e + 7)%Z) (get_weekly_expirations n today)).
Proof.
  rewrite !get_weekly_expirations_eq.
  pose proof (next_day_offset (dt_day today)) as Hoff. simpl in Hoff.
  unfold weekday, add_days in *. simpl.
  split; intros Hw.
  - apply Z.eqb_neq in Hw. rewrite Hw in Hoff. rewrite Hoff.
    apply map_ext. intros i. lia.
  - rewrite map_map. rewrite Hw in *. simpl in Hoff. rewrite Hoff.
    apply map_ext. intros i. change ((4 - 4) mod 7)%Z with 0%Z. lia.
Qed.

Lemma expirations_next_day_witness :
  weekday tuesday_afternoon <> 4%Z /\
  get_weekly_expirations 8 (add_days tuesday_afternoon 1) =
  get_weekly_expirations 8 tuesday_afternoon.
Proof.
  assert (Hw : weekday tuesday_afternoon <> 4%Z) by discriminate.
  split; [exact Hw|]. exact (proj1 (expirations_next_day 8 tuesday_afternoon) Hw).
Defined.

(** ** The table shown *)


Lemma ticker_loop_forall (yf_Ticker : string -> exc stock_t) (now : datetime)
    (strategy : string) (m : Z) (min_price max_price : float64)
    (tickers : list string) (expirations : list date_text) :
  exists rows,
    ticker_loop yf_Ticker now strategy m min_price max_price tickers expirations []
      = Ok rows /\
    (length rows <= length tickers * length expirations)%nat /\
    Forall (fun r => In (Ticker r) tickers /\ In (Expiration r) expirations /\
                     Strategy r = strategy) rows.
Proof.
  rewrite ticker_loop_rows. simpl. eexists. split; [reflexivity|].
  assert (Hone : forall t,
    let g := rows_of_ticker yf_Ticker now strategy m min_price max_price
               expirations t in
    (length g <= length expirations)%nat /\
    Forall (fun r => Ticker r = t /\ In (Expiration r) expirations /\
                     Strategy r = strategy) g).
  { intros t g.
    destruct (analyze_options_shape yf_Ticker now strategy m min_price max_price
                t expirations) as (rows' & Hrows & _ & Hlen & Hall).
    rewrite analyze_options_rows in Hrows. injection Hrows as <-.
    split; [exact Hlen|].
    eapply List.Forall_impl; [|exact Hall]. simpl. tauto. }
  split.
  - apply flat_map_length_le. intros t. apply Hone.
  - apply List.Forall_forall. intros r Hr.
    apply in_flat_map in Hr as (t & Ht & Hr).
    destruct (Hone t) as (_ & Hall).
    rewrite List.Forall_forall in Hall. destruct (Hall r Hr) as (<- & He & Hs).
    auto.
Qed.

Lemma expirations_fridays (n : Z) (today : datetime) (e : date_text) :
  In e (get_weekly_expirations n today) -> weekday (strptime_ymd e) = 4%Z.
Proof.
  rewrite get_weekly_expirations_eq. intros He.
  apply in_map_iff in He as (i & <- & _).
  rewrite weekday_shift. apply first_friday_spec.
Qed.

(** X15. The script, from the texts typed and the entry chosen to the table: it
    never raises; what it shows is the display of the rows collected; there
    are at most eight rows for each ticker of the list; every row is for a
    ticker of the list, the strategy chosen, and an expiration that is a
    Friday from today on and less than 56 days ahead. *)
Theorem script_rows (yf_Ticker : string -> exc stock_t) (today now : datetime)
    (strategy : string) (m : Z) (min_price max_price : float64)
    (additional_tickers selected_stock : string) :
  In selected_stock (tickers_list additional_tickers) ->
  exists rows,
    script yf_Ticker today now strategy m min_price max_price
      additional_tickers selected_stock = Ok (display rows) /\
    (length rows <= 8 * length (unique_stocks additional_tickers))%nat /\
    Forall (fun r =>
              In (Ticker r) (unique_stocks additional_tickers) /\
              Strategy r = strategy /\
              weekday (strptime_ymd (Expiration r)) = 4%Z /\
              (dt_day today <= Expiration r < dt_day today + 56)%Z) rows.
Proof.
  intros Hsel.
  assert (Hcases :
    let ts := tickers_to_process selected_stock (unique_stocks additional_tickers) in
    (forall t, In t ts -> In t (unique_stocks additional_tickers)) /\
    (length ts <= length (unique_stocks additional_tickers))%nat).
  { unfold tickers_to_process.
    destruct (String.eqb_spec selected_stock "ALL") as [->|Hne]; simpl.
    - split; [auto|lia].
    - destruct Hsel as [E|Hin]; [congruence|].
      split; [intros t [<-|[]]; exact Hin|].
      destruct (unique_stocks additional_tickers); [contradiction|simpl; lia]. }
  destruct Hcases as (Hsub & Hts).
  set (ts := tickers_to_process selected_stock (unique_stocks additional_tickers)) in *.
  destruct (ticker_loop_forall yf_Ticker now strategy m min_price max_price ts
              (get_weekly_expirations 8 today)) as (rows & Hloop & Hlen & Hall).
  exists rows. split; [|split].
  - unfold script, run. fold ts. now rewrite Hloop.
  - assert (H8 : length (get_weekly_expirations 8 today) = 8%nat).
    { rewrite get_weekly_expirations_eq, length_map, range_length. reflexivity. }
    rewrite H8 in Hlen. lia.
  - eapply List.Forall_impl; [|exact Hall]. cbv beta.
    intros r (Ht & He & Hs).
    split; [apply Hsub, Ht|]. split; [exact Hs|].
    split; [exact (expirations_fridays 8 today _ He)|].
    pose proof (expirations_in_window 8 today _ He). lia.
Qed.

(** ** Monotone float arithmetic *)

Lemma fle_fzero_l (s : bool) (y : float64) : fle (fzero s) y = fle (FVal 0) y.
Proof. destruct s, y as [|[]| |]; reflexivity. Qed.

Lemma fle_fzero_r (s : bool) (x : float64) : fle x (fzero s) = fle x (FVal 0).
Proof. destruct s, x as [|[]| |]; reflexivity. Qed.

Lemma fle_Qeq_l (a b : Q) (y : float64) :
  (a == b)%Q -> fle (FVal a) y = fle (FVal b) y.
Proof.
  intros E. destruct y as [|[]|c|]; simpl; try reflexivity;
    apply eq_true_iff_eq; rewrite !Qle_bool_iff, E; reflexivity.
Qed.

Lemma fle_Qeq_r (a b : Q) (x : float64) :
  (a == b)%Q -> fle x (FVal a) = fle x (FVal b).
Proof.
  intros E. destruct x as [|[]|c|]; simpl; try reflexivity;
    apply eq_true_iff_eq; rewrite !Qle_bool_iff, E; reflexivity.
Qed.

Lemma round_to_zero (s : bool) (q : Q) : (q == 0)%Q -> round_to s q = fzero s.
Proof. intros E. unfold round_to. apply Qeq_bool_iff in E. now rewrite E. Qed.

Lemma round_to_cases (s : bool) (q : Q) :
  round_to s q = fzero s \/ round_to s q = FInf s \/ exists v, round_to s q = FVal v.
Proof.
  unfold round_to. destruct (Qeq_bool q 0); [now left|]. cbv zeta.
  destruct (Qeq_bool (nearest q) 0); [now left|].
  destruct (Qle_bool _ _); [right; now left|right; right; eauto].
Qed.

Lemma fle_ninf_round_to (s : bool) (q : Q) : fle (FInf true) (round_to s q) = true.
Proof.
  destruct (round_to_cases s q) as [->|[->|[v ->]]]; try reflexivity;
    now destruct s.
Qed.

Lemma fle_round_to_pinf (s : bool) (q : Q) : fle (round_to s q) (FInf false) = true.
Proof.
  destruct (round_to_cases s q) as [->|[->|[v ->]]]; try reflexivity;
    now destruct s.
Qed.

(** With the sign of the number, rounding compares as [rnd] does. *)
Lemma round_to_fle_l (s : bool) (q : Q) (y : float64) :
  (~ (q == 0)%Q -> s = Qlt_bool q 0) -> fle (round_to s q) y = fle (rnd q) y.
Proof.
  intros Hs. destruct (Qeq_dec q 0) as [E|Hne].
  - unfold rnd. rewrite !(round_to_zero _ q E), !fle_fzero_l. reflexivity.
  - now rewrite (Hs Hne).
Qed.

Lemma round_to_fle_r (s : bool) (q : Q) (x : float64) :
  (~ (q == 0)%Q -> s = Qlt_bool q 0) -> fle x (round_to s q) = fle x (rnd q).
Proof.
  intros Hs. destruct (Qeq_dec q 0) as [E|Hne].
  - unfold rnd. rewrite !(round_to_zero _ q E), !fle_fzero_r. reflexivity.
  - now rewrite (Hs Hne).
Qed.

Lemma round_to_mono (s1 s2 : bool) (q1 q2 : Q) :
  (~ (q1 == 0)%Q -> s1 = Qlt_bool q1 0) -> (~ (q2 == 0)%Q -> s2 = Qlt_bool q2 0) ->
  (q1 <= q2)%Q -> fle (round_to s1 q1) (round_to s2 q2) = true.
Proof.
  intros H1 H2 Hle. rewrite round_to_fle_l, round_to_fle_r by assumption.
  now apply rnd_mono.
Qed.

(** An operation that maps the infinities to themselves and a finite value
    to the rounding of a monotone function of it is monotone. *)
Lemma lifted_mono (g : Q -> Q) (op : float64 -> float64) :
  (forall a b, (a <= b)%Q -> (g a <= g b)%Q) -> (g 0%Q == 0)%Q ->
  (forall s, op (FInf s) = FInf s) ->
  (forall q, op (FVal q) = round_to (Qlt_bool q 0) (g q)) ->
  op FNegZero = round_to true (g 0%Q) ->
  forall x y, fle x y = true -> fle (op x) (op y) = true.
Proof.
  intros Hmono Hzero Hinf Hval Hnz x y Hle.
  assert (Hsign : forall q, ~ (g q == 0)%Q -> Qlt_bool q 0 = Qlt_bool (g q) 0).
  { intros q Hne. apply eq_true_iff_eq. rewrite !Qlt_bool_iff. split; intros H.
    - assert (Hg : (g q <= g 0%Q)%Q) by (apply Hmono; lra).
      rewrite Hzero in Hg. apply Qnot_le_lt. intros Hc. apply Hne. lra.
    - apply Qnot_le_lt. intros Hc.
      assert (Hg : (g 0%Q <= g q)%Q) by (apply Hmono; exact Hc).
      rewrite Hzero in Hg. lra. }
  assert (Hsz : ~ (g 0%Q == 0)%Q -> true = Qlt_bool (g 0%Q) 0) by (intros Hc; now destruct Hc).
  destruct x as [|[]|a|], y as [|[]|b|]; simpl in Hle; try discriminate Hle;
    rewrite ?Hinf, ?Hval, ?Hnz;
    try reflexivity; try apply fle_ninf_round_to; try apply fle_round_to_pinf;
    (apply round_to_mono; [auto|auto|apply Hmono; apply Qle_bool_iff; exact Hle]).
Qed.


Lemma of_int_2 : of_int 2 = FVal 2.
Proof. vm_compute. reflexivity. Qed.

Lemma of_int_365 : of_int 365 = FVal 365.
Proof. vm_compute. reflexivity. Qed.



Lemma fdiv_pos_mono (c : Q) (x y : float64) :
  (0 < c)%Q -> fle x y = true -> fle (fdiv x (FVal c)) (fdiv y (FVal c)) = true.
Proof.
  intros Hc. revert x y.
  apply (lifted_mono (fun q => q / c)%Q (fun x => fdiv x (FVal c))).
  - intros a b Hab. apply Qmult_le_compat_r; [exact Hab|].
    now apply Qlt_le_weak, Qinv_lt_0_compat.
  - unfold Qdiv. ring.
  - intros s. simpl.
    now rewrite (Qlt_bool_nonneg c), xorb_false_r by now apply Qlt_le_weak.
  - intros q. simpl. rewrite Qeq_bool_pos by exact Hc. simpl.
    now rewrite (Qlt_bool_nonneg c), xorb_false_r by now apply Qlt_le_weak.
  - simpl. rewrite Qeq_bool_pos by exact Hc. simpl.
    now rewrite (Qlt_bool_nonneg c) by now apply Qlt_le_weak.
Qed.



(** ** Floats and equal rationals *)

Lemma Qeq_bool_ext (a b : Q) : (a == b)%Q -> Qeq_bool a 0 = Qeq_bool b 0.
Proof. intros E. apply eq_true_iff_eq. rewrite !Qeq_bool_iff, E. reflexivity. Qed.

Lemma round_to_Qeq (s : bool) (q1 q2 : Q) :
  (q1 == q2)%Q -> round_to s q1 = round_to s q2.
Proof.
  intros E. pose proof (nearest_Qeq q1 q2 E) as En. unfold round_to.
  rewrite (Qeq_bool_ext q1 q2 E), (Qeq_bool_ext _ _ En).
  assert (Eo : Qle_bool (pow2 1024) (Qabs (nearest q1)) =
               Qle_bool (pow2 1024) (Qabs (nearest q2))).
  { apply eq_true_iff_eq. rewrite !Qle_bool_iff, En. reflexivity. }
  rewrite Eo, (Qred_complete _ _ En). reflexivity.
Qed.

Lemma rnd_Qeq (q1 q2 : Q) : (q1 == q2)%Q -> rnd q1 = rnd q2.
Proof.
  intros E. unfold rnd. rewrite (round_to_Qeq _ q1 q2 E). f_equal.
  apply Qlt_bool_ext. now rewrite E.
Qed.



Lemma is_float_double (q : Q) :
  is_float q -> (Qabs (2 * q) < pow2 1024)%Q -> is_float (2 * q).
Proof.
  intros (z & j & Hz & Hj & Hq & _) Hb. exists z, (j + 1)%Z.
  split; [exact Hz|]. split; [lia|]. split; [|exact Hb].
  rewrite pow2_add, Hq. change (pow2 1) with 2%Q. ring.
Qed.

(** ** The target strike *)

(** X16. The target strike is rounded in float arithmetic, which can miss the
    decimal rounding of the exact product by a cent: at the close 33.5 and 3
    percent the put target is 32.49, where the exact product 32.495 rounds to
    32.50, and a put at the strike 32.5 is not eligible; at the close 79.8125
    and 4 percent the call target is 83.01, where the exact product 83.005
    rounds to 83.00, and a call at the strike 83 is not eligible. *)
Theorem target_strike_float_rounding :
  target_strike CSP (dbl 33.5) 3 = Ok (dbl 32.49) /\
  round2 (FVal (33.5 * (1 - 3 / 100))) = FVal (3250 # 100) /\
  options_filtered CSP [half_quote 32; half_quote 32.5] (dbl 32.49) = [half_quote 32] /\
  target_strike CC (dbl 79.8125) 4 = Ok (dbl 83.01) /\
  round2 (FVal (79.8125 * (1 + 4 / 100))) = FVal (8300 # 100) /\
  options_filtered CC [half_quote 83; half_quote 83.5] (dbl 83.01) = [half_quote 83.5].
Proof. repeat split; vm_compute; reflexivity. Qed.


Lemma fadd_sign (q : Q) (s : bool) :
  ~ (q == 0)%Q -> (if Qeq_bool q 0 then s else Qlt_bool q 0) = Qlt_bool q 0.
Proof.
  intros Hne. destruct (Qeq_bool q 0) eqn:E; [|reflexivity].
  apply Qeq_bool_iff in E. contradiction.
Qed.







(** ** Premium and returns of well-formed quotes *)

(** X18. With a positive bid that does not exceed the ask, both far from the
    largest float, the premium is their mean in float arithmetic and lies
    between the two. *)
Theorem premium_between (sel : quote) (b a : Q) :
  bid sel = FVal b -> ask sel = FVal a -> is_float b -> is_float a ->
  (0 < b)%Q -> (b <= a)%Q -> (a <= pow2 1022)%Q ->
  premium_of sel = fdiv (fadd (FVal b) (FVal a)) (of_int 2) /\
  fle (FVal b) (premium_of sel) = true /\
  fle (premium_of sel) (FVal a) = true.
Proof.
  intros Hb Ha Fb Fa Hpos Hle Hmax.
  assert (Hpremium : premium_of sel = fdiv (fadd (FVal b) (FVal a)) (of_int 2)).
  { apply (proj1 (premium_rule sel) b a Hb Ha); intros E; rewrite E in *; lra. }
  split; [exact Hpremium|]. rewrite Hpremium, of_int_2.
  assert (Hrange : forall q, (0 < q)%Q -> (q <= a)%Q -> (Qabs (2 * q) < pow2 1024)%Q).
  { intros q Hq Hqa. rewrite Qabs_pos by lra.
    apply Qle_lt_trans with (2 * pow2 1022)%Q; [lra|]. reflexivity. }
  assert (Hhalf : forall q, is_float q -> (0 < q)%Q -> (q <= a)%Q ->
            exists v, (v == q)%Q /\ rnd (2 * q) = FVal (2 * v) \/
                      (rnd (2 * q / 2) = FVal v /\
                       exists w, rnd (2 * q) = FVal w /\ (w == 2 * q)%Q)).
  { intros q Fq Hq Hqa.
    destruct (rnd_float q Fq) as (v & Hv & Ev).
    destruct (rnd_float (2 * q) (is_float_double q Fq (Hrange q Hq Hqa)))
      as (w & Hw & Ew).
    exists v. right. split; [|eauto].
    rewrite (rnd_Qeq (2 * q / 2) q) by field. exact Hv. }
  cbn [fadd fval].
  set (S := round_to _ (b + a)).
  assert (Hlow : fle (rnd (2 * b)) S = true).
  { unfold S. rewrite round_to_fle_r by (intros Hne; now apply fadd_sign).
    apply rnd_mono. lra. }
  assert (Hhigh : fle S (rnd (2 * a)) = true).
  { unfold S. rewrite round_to_fle_l by (intros Hne; now apply fadd_sign).
    apply rnd_mono. lra. }
  destruct (rnd_float b Fb) as (vb & Hvb & Evb).
  destruct (rnd_float a Fa) as (va & Hva & Eva).
  destruct (rnd_float (2 * b) (is_float_double b Fb (Hrange b Hpos Hle)))
    as (wb & Hwb & Ewb).
  destruct (rnd_float (2 * a) (is_float_double a Fa (Hrange a ltac:(lra) ltac:(lra))))
    as (wa & Hwa & Ewa).
  rewrite Hwb in Hlow. rewrite Hwa in Hhigh. split.
  - apply (fdiv_pos_mono 2) in Hlow; [|reflexivity].
    rewrite fdiv_finite, (rnd_Qeq (wb / 2) b), Hvb in Hlow
      by (reflexivity || (rewrite Ewb; field)).
    now rewrite (fle_Qeq_l b vb) by now symmetry.
  - apply (fdiv_pos_mono 2) in Hhigh; [|reflexivity].
    rewrite (fdiv_finite wa), (rnd_Qeq (wa / 2) a), Hva in Hhigh
      by (reflexivity || (rewrite Ewa; field)).
    now rewrite (fle_Qeq_r a va) by now symmetry.
Qed.

(*X19*)

(** ** The text of a number *)

Lemma string_of_uint_digits (d : Decimal.uint) :
  all_digits (NilEmpty.string_of_uint d) = true.
Proof. induction d; simpl; auto. Qed.

Lemma dec_digits (z : Z) : dec z <> EmptyString /\ all_digits (dec z) = true.
Proof.
  unfold dec, NilZero.string_of_uint.
  destruct (N.to_uint (Z.to_N z)) eqn:E;
    (split; [discriminate|]); try reflexivity;
    rewrite <- E at 1;
    change (String ?c (NilEmpty.string_of_uint ?u)) with
      (NilEmpty.string_of_uint (N.to_uint (Z.to_N z)));
    try apply string_of_uint_digits.
Qed.

Lemma two_digits_shape (z : Z) :
  (0 <= z < 100)%Z ->
  exists d1 d2, two_digits z = String d1 (String d2 EmptyString) /\
                is_digit d1 = true /\ is_digit d2 = true.
Proof.
  intros Hz.
  assert (Hk : exists k, (k < 100)%nat /\ z = Z.of_nat k).
  { exists (Z.to_nat z). lia. }
  destruct Hk as (k & Hk & ->).
  do 100 (destruct k as [|k]; [do 2 eexists; repeat split; reflexivity|]).
  lia.
Qed.

(** X20. [fmt] turns every number into a text and leaves everything else as it is,
    so formatting twice changes nothing more; the text of a finite number is
    an optional minus sign, at least one digit, a point and exactly two
    digits. *)
Theorem fmt_text :
  (forall x, fmt (fmt x) = fmt x) /\
  (forall x, is_number x -> exists s, fmt x = VStr s) /\
  (forall x, ~ is_number x -> fmt x = x) /\
  (forall q, exists sign whole d1 d2,
     format_2f (FVal q) =
       String.append sign (String.append whole (String "." (String d1 (String d2 EmptyString)))) /\
     (sign = EmptyString \/ sign = "-"%string) /\
     whole <> EmptyString /\ all_digits whole = true /\
     is_digit d1 = true /\ is_digit d2 = true).
Proof.
  split; [|split; [|split]].
  - intros []; reflexivity.
  - intros [] H; try contradiction; simpl; eauto.
  - intros [] H; try reflexivity; destruct H; exact I.
  - intros q. simpl. unfold format_2f_Q.
    set (a := Z.abs (round_half_even (q * 100))).
    destruct (two_digits_shape (a mod 100)) as (d1 & d2 & -> & H1 & H2).
    { apply Z.mod_pos_bound. lia. }
    destruct (dec_digits (a / 100)) as [Hne Hall].
    exists (if Qlt_bool q 0 then "-"%string else EmptyString), (dec (a / 100)), d1, d2.
    split; [reflexivity|].
    split; [destruct (Qlt_bool q 0); auto|]. auto.
Qed.

(** ** Fundamentals the row assembly cannot compute with *)

Lemma make_row_raises (ticker strategy : string) (inf : gmap string pyval)
    (price : float64) (e : date_text) (mt : metrics) :
  inf !! "dividendYield"%string = Some VNone \/
  inf !! "earningsQuarterlyGrowth"%string = Some VNone \/
  (exists s, inf !! "earningsQuarterlyGrowth"%string = Some (VStr s)) ->
  exists x, make_row ticker strategy inf price e mt = Raise x.
Proof.
  unfold make_row, dict_get. intros [H|[H|[s H]]]; rewrite H; simpl.
  - eauto.
  - destruct (py_mul_int _ _); simpl; eauto.
  - destruct (py_mul_int _ _); simpl; eauto.
Qed.

(** X21. A ticker whose fundamentals hold [None] for the dividend yield, or [None]
    or a text for the quarterly earnings growth, gives no row at all: the
    product or the comparison raises in the assembly of every row, and each
    expiration is passed over. *)
Theorem unusable_fundamentals_no_rows (yf_Ticker : string -> exc stock_t)
    (now : datetime) (strategy : string) (m : Z) (min_price max_price : float64)
    (ticker : string) (expirations : list date_text) (stock : stock_t)
    (inf : gmap string pyval) :
  yf_Ticker ticker = Ok stock -> info stock = Ok inf ->
  inf !! "dividendYield"%string = Some VNone \/
  inf !! "earningsQuarterlyGrowth"%string = Some VNone \/
  (exists s, inf !! "earningsQuarterlyGrowth"%string = Some (VStr s)) ->
  analyze_options yf_Ticker now strategy m min_price max_price ticker expirations
    = Ok [].
Proof.
  intros Hstock Hinf Hbad.
  unfold analyze_options, analyze_options_body.
  rewrite Hstock. simpl. rewrite Hinf. simpl.
  destruct (history_close stock) as [hist|x]; simpl; [|reflexivity].
  destruct (iloc_last hist) as [price|x]; cbn [mbind exc_bind]; [|reflexivity].
  destruct (flt price min_price || flt max_price price); [reflexivity|].
  rewrite expirations_loop_rows. simpl. f_equal.
  induction expirations as [|e es IH]; simpl; [reflexivity|].
  rewrite IH, app_nil_r. unfold rows_of_expiration, expiration_body.
  destruct (select_candidate strategy m stock price e) as [[sel|]|x]; simpl;
    try reflexivity.
  destruct (make_row_raises ticker strategy inf price e
              (compute_metrics sel e now) Hbad) as [x ->].
  reflexivity.
Qed.

Lemma unusable_fundamentals_no_rows_witness :
  no_dividend_info !! "dividendYield"%string = Some VNone /\
  analyze_options (fun _ => Ok no_dividend_stock)
    tuesday_afternoon CSP 5 (FVal 50) (FVal 500) "XYZ" [december_4] = Ok [].
Proof.
  assert (Hnone : no_dividend_info !! "dividendYield"%string = Some VNone)
    by reflexivity.
  split; [exact Hnone|].
  exact (unusable_fundamentals_no_rows (fun _ => Ok no_dividend_stock)
           tuesday_afternoon CSP 5 (FVal 50) (FVal 500) "XYZ" [december_4]
           no_dividend_stock no_dividend_info eq_refl eq_refl (or_introl Hnone)).
Defined.

(** ** Days and annualized return of a row *)



Lemma dec_inj (z1 z2 : Z) :
  (0 <= z1)%Z -> (0 <= z2)%Z -> dec z1 = dec z2 -> z1 = z2.
Proof.
  intros H1 H2 Hdec. unfold dec in Hdec.
  assert (Hnz : forall n, NilZero.string_of_uint (N.to_uint n) =
                          NilEmpty.string_of_uint (N.to_uint n)).
  { intros [|p]; [reflexivity|]. simpl.
    pose proof (DecimalPos.Unsigned.to_uint_nonnil p) as Hp.
    unfold NilZero.string_of_uint. now destruct (Pos.to_uint p). }
  rewrite !Hnz in Hdec.
  apply (f_equal NilEmpty.uint_of_string) in Hdec.
  rewrite !NilEmpty.usu in Hdec. injection Hdec as Hdec.
  apply DecimalN.Unsigned.to_uint_inj in Hdec. lia.
Qed.

Lemma append_point_inj (s1 s2 t1 t2 : string) :
  all_digits s1 = true -> all_digits s2 = true ->
  String.append s1 (String "." t1) = String.append s2 (String "." t2) ->
  s1 = s2 /\ t1 = t2.
Proof.
  revert s2. induction s1 as [|c s1 IH]; intros [|c2 s2]; simpl; intros Hd1 Hd2 Heq.
  - injection Heq as ->. now split.
  - injection Heq as <- _. discriminate Hd2.
  - injection Heq as -> _. discriminate Hd1.
  - injection Heq as -> Heq.
    apply andb_true_iff in Hd1 as [_ Hd1]. apply andb_true_iff in Hd2 as [_ Hd2].
    destruct (IH s2 Hd1 Hd2 Heq) as [-> ->]. now split.
Qed.

Lemma two_digits_value (z : Z) :
  (0 <= z < 100)%Z ->
  match two_digits z with
  | String a (String b EmptyString) =>
      Z.of_N ((N_of_ascii a - 48) * 10 + (N_of_ascii b - 48))
  | _ => (-1)%Z
  end = z.
Proof.
  intros Hz.
  assert (Hk : exists k, (k < 100)%nat /\ z = Z.of_nat k).
  { exists (Z.to_nat z). lia. }
  destruct Hk as (k & Hk & ->).
  do 100 (destruct k as [|k]; [reflexivity|]).
  lia.
Qed.

Lemma two_digits_inj (z1 z2 : Z) :
  (0 <= z1 < 100)%Z -> (0 <= z2 < 100)%Z -> two_digits z1 = two_digits z2 -> z1 = z2.
Proof.
  intros H1 H2 Heq.
  rewrite <- (two_digits_value z1 H1), <- (two_digits_value z2 H2).
  now rewrite Heq.
Qed.

(** X23. The texts of two amounts that are not negative are the same exactly when
    the amounts round to the same cent: the text keeps the rounded value and
    nothing else. *)
Theorem format_to_the_cent (q1 q2 : Q) :
  (0 <= q1)%Q -> (0 <= q2)%Q ->
  (format_2f (FVal q1) = format_2f (FVal q2) <-> round2 (FVal q1) = round2 (FVal q2)).
Proof.
  intros H1 H2. simpl. unfold format_2f_Q.
  rewrite !Qlt_bool_nonneg by assumption. simpl.
  assert (Hr1 : (0 <= round_half_even (q1 * 100))%Z).
  { apply round_half_even_nonneg, Qmult_le_0_compat; [exact H1|discriminate]. }
  assert (Hr2 : (0 <= round_half_even (q2 * 100))%Z).
  { apply round_half_even_nonneg, Qmult_le_0_compat; [exact H2|discriminate]. }
  rewrite !Z.abs_eq by assumption.
  set (a1 := round_half_even (q1 * 100)) in *.
  set (a2 := round_half_even (q2 * 100)) in *.
  split.
  - intros Heq.
    apply append_point_inj in Heq as [Hw Hf]; try apply dec_digits.
    apply dec_inj in Hw; try (apply Z.div_pos; lia).
    apply two_digits_inj in Hf; try (apply Z.mod_pos_bound; lia).
    f_equal. f_equal.
    rewrite (Z.div_mod a1 100), (Z.div_mod a2 100) by lia. now rewrite Hw, Hf.
  - intros [= ->]. reflexivity.
Qed.

Lemma format_to_the_cent_witness :
  (0 <= 2125 # 1000)%Q /\ (0 <= 212 # 100)%Q /\
  round2 (FVal (2125 # 1000)) = round2 (FVal (212 # 100)).
Proof.
  assert (H1 : (0 <= 2125 # 1000)%Q) by discriminate.
  assert (H2 : (0 <= 212 # 100)%Q) by discriminate.
  split; [exact H1|]. split; [exact H2|].
  apply (proj1 (format_to_the_cent (2125 # 1000) (212 # 100) H1 H2)).
  reflexivity.
Defined.

(** ** One row for a ticker and an expiration *)

Lemma ascending_dates_NoDup (l : list date_text) : StronglySorted Z.lt l -> NoDup l.
Proof. apply strictly_ascending_NoDup. Qed.

Lemma rows_of_ticker_shape (yf_Ticker : string -> exc stock_t) (now : datetime)
    (strategy : string) (m : Z) (min_price max_price : float64)
    (expirations : list date_text) (t : string) :
  let g := rows_of_ticker yf_Ticker now strategy m min_price max_price expirations t in
  sublist (Expiration <$> g) expirations /\ Forall (fun r => Ticker r = t) g.
Proof.
  intros g.
  destruct (analyze_options_shape yf_Ticker now strategy m min_price max_price
              t expirations) as (rows' & Hrows & Hsub & _ & Hall).
  rewrite analyze_options_rows in Hrows. injection Hrows as <-.
  split; [exact Hsub|].
  eapply List.Forall_impl; [|exact Hall]. simpl. tauto.
Qed.

Lemma ticker_loop_keys_NoDup (yf_Ticker : string -> exc stock_t) (now : datetime)
    (strategy : string) (m : Z) (min_price max_price : float64)
    (tickers : list string) (expirations : list date_text) (rows : list row) :
  NoDup tickers -> NoDup expirations ->
  ticker_loop yf_Ticker now strategy m min_price max_price tickers expirations []
    = Ok rows ->
  NoDup ((fun r => (Ticker r, Expiration r)) <$> rows).
Proof.
  intros Hts Hes. rewrite ticker_loop_rows. simpl. intros [= <-].
  induction Hts as [|t ts Ht Hts IH]; simpl; [constructor|].
  rewrite fmap_app. apply NoDup_app.
  destruct (rows_of_ticker_shape yf_Ticker now strategy m min_price max_price
              expirations t) as [Hsub Hall].
  set (g := rows_of_ticker yf_Ticker now strategy m min_price max_price
              expirations t) in *.
  assert (Hkeys : (fun r => (Ticker r, Expiration r)) <$> g =
                  (fun e => (t, e)) <$> (Expiration <$> g)).
  { rewrite <- list_fmap_compose. apply list_fmap_ext.
    intros i r Hr. simpl. f_equal.
    rewrite List.Forall_forall in Hall. apply Hall.
    apply list_elem_of_In, list_elem_of_lookup. eauto. }
  split; [|split; [|exact IH]].
  - rewrite Hkeys. apply NoDup_fmap_2.
    + intros e1 e2 [= ->]. reflexivity.
    + eapply sublist_NoDup; eassumption.
  - intros [t' e] Hin Hin'. rewrite Hkeys in Hin.
    apply list_elem_of_fmap in Hin as (e' & [= -> ->] & _).
    apply list_elem_of_fmap in Hin' as (r & [= Hr _] & Hin').
    apply list_elem_of_In, in_flat_map in Hin' as (t' & Ht' & Hr').
    destruct (rows_of_ticker_shape yf_Ticker now strategy m min_price max_price
                expirations t') as [_ Hall'].
    rewrite List.Forall_forall in Hall'. specialize (Hall' r Hr').
    apply Ht. apply list_elem_of_In. congruence.
Qed.

(** X24. The table shown never holds two rows for the same ticker and the same
    expiration. *)
Theorem table_one_row_per_pair (yf_Ticker : string -> exc stock_t)
    (today now : datetime) (strategy : string) (m : Z)
    (min_price max_price : float64) (additional_tickers selected_stock : string)
    (table : list row) :
  In selected_stock (tickers_list additional_tickers) ->
  script yf_Ticker today now strategy m min_price max_price
    additional_tickers selected_stock = Ok (Some table) ->
  NoDup (map (fun r => (Ticker r, Expiration r)) table).
Proof.
  intros Hsel. unfold script, run.
  set (ts := tickers_to_process selected_stock (unique_stocks additional_tickers)).
  destruct (ticker_loop yf_Ticker now strategy m min_price max_price ts
              (get_weekly_expirations 8 today) []) as [rows|x] eqn:Hloop;
    simpl; [|discriminate].
  intros [= Htable].
  assert (Hts : NoDup ts).
  { subst ts. unfold tickers_to_process.
    destruct (String.eqb selected_stock "ALL").
    - apply ascending_NoDup, sorted_set_sorted.
    - apply NoDup_singleton. }
  assert (Hes : NoDup (get_weekly_expirations 8 today)).
  { apply ascending_dates_NoDup. rewrite get_weekly_expirations_eq.
    apply weekly_sorted. }
  pose proof (ticker_loop_keys_NoDup _ _ _ _ _ _ _ _ _ Hts Hes Hloop) as Hnd.
  assert (Hperm : Permutation rows table).
  { destruct rows; [discriminate Htable|].
    injection Htable as <-. apply sort_values_desc_perm. }
  change (NoDup ((fun r => (Ticker r, Expiration r)) <$> table)).
  now rewrite <- Hperm.
Qed.

Lemma table_one_row_per_pair_witness :
  exists table,
    script xyz_gateway tuesday_afternoon tuesday_afternoon CSP 5 (FVal 50) (FVal 500)
      "xyz" "XYZ" = Ok (Some table) /\
    NoDup (map (fun r => (Ticker r, Expiration r)) table).
Proof.
  eexists. split.
  - vm_compute. reflexivity.
  - eapply (table_one_row_per_pair xyz_gateway tuesday_afternoon tuesday_afternoon
              CSP 5 (FVal 50) (FVal 500) "xyz" "XYZ").
    + vm_compute. tauto.
    + vm_compute. reflexivity.
Defined.

(** ** A gateway that is down *)

(** X25. When the gateway raises for every ticker, the script raises nothing and
    shows the warning in place of a table. *)
Theorem gateway_down_warning (yf_Ticker : string -> exc stock_t)
    (today now : datetime) (strategy : string) (m : Z)
    (min_price max_price : float64) (additional_tickers selected_stock : string) :
  (forall ticker, exists x, yf_Ticker ticker = Raise x) ->
  script yf_Ticker today now strategy m min_price max_price
    additional_tickers selected_stock = Ok None.
Proof.
  intros Hdown. unfold script, run. rewrite ticker_loop_rows. simpl.
  replace (flat_map _ _) with (@nil row); [reflexivity|].
  symmetry. induction (tickers_to_process _ _) as [|t ts IH]; simpl; [reflexivity|].
  rewrite IH, app_nil_r. unfold rows_of_ticker.
  now rewrite (fetch_failure_no_rows _ _ _ _ _ _ t _ (or_introl (Hdown t))).
Qed.

Lemma gateway_down_warning_witness :
  script (fun _ => Raise (FetchError "offline")) tuesday_afternoon tuesday_afternoon
    CSP 5 (FVal 50) (FVal 500) "ibm" "ALL" = Ok None.
Proof.
  apply gateway_down_warning. intros ticker. eexists. reflexivity.
Defined.

(** ** Whole days *)

(** X26. Days to expiration count whole days: an expiration [k] days later has [k]
    more of them, and the same expiration seen [k] days later has [k] fewer;
    so the days of consecutive weekly expirations differ by seven. *)
Theorem days_to_exp_shift (e : date_text) (now : datetime) (k : Z) :
  days_to_exp_of (e + k)%Z now = (days_to_exp_of e now + k)%Z /\
  days_to_exp_of e (add_days now k) = (days_to_exp_of e now - k)%Z.
Proof.
  unfold days_to_exp_of, timedelta_days, strptime_ymd, add_days. simpl.
  assert (Hu : (us_per_day <> 0)%Z) by discriminate.
  split.
  - replace ((e + k - dt_day now) * us_per_day + (0 - dt_us now))%Z
      with ((0 - dt_us now) + (e - dt_day now) * us_per_day + k * us_per_day)%Z by ring.
    rewrite Z.div_add by exact Hu. f_equal.
    f_equal. ring.
  - replace ((e - (dt_day now + k)) * us_per_day + (0 - dt_us now))%Z
      with ((e - dt_day now) * us_per_day + (0 - dt_us now) + (- k) * us_per_day)%Z
      by ring.
    rewrite Z.div_add by exact Hu. ring.
Qed.

(** ** Further statements at the sample data *)

Lemma script_rows_witness :
  In "XYZ"%string (tickers_list "xyz") /\
  exists rows,
    script xyz_gateway tuesday_afternoon tuesday_afternoon CSP 5 (FVal 50) (FVal 500)
      "xyz" "XYZ" = Ok (display rows) /\
    (length rows <= 8 * length (unique_stocks "xyz"))%nat.
Proof.
  assert (Hin : In "XYZ"%string (tickers_list "xyz")) by (vm_compute; tauto).
  split; [exact Hin|].
  destruct (script_rows xyz_gateway tuesday_afternoon tuesday_afternoon CSP 5
              (FVal 50) (FVal 500) "xyz" "XYZ" Hin) as (rows & Hscript & Hlen & _).
  exists rows. split; [exact Hscript|exact Hlen].
Defined.


Lemma fmt_text_witness :
  is_number (VInt 7) /\ exists s, fmt (VInt 7) = VStr s.
Proof.
  assert (Hn : is_number (VInt 7)) by exact I.
  split; [exact Hn|]. exact (proj1 (proj2 fmt_text) (VInt 7) Hn).
Defined.

Lemma expirations_window_witness :
  (-3 <= 0)%Z /\ get_weekly_expirations (-3) tuesday_afternoon = [].
Proof.
  assert (Hn : (-3 <= 0)%Z) by discriminate.
  split; [exact Hn|]. exact (proj1 (expirations_window (-3) tuesday_afternoon) Hn).
Defined.

Lemma unique_stocks_sorted_set_witness :
  In "SPY"%string (magnificent7 ++ etfs) /\ In "SPY"%string (unique_stocks "ibm, spy").
Proof.
  assert (Hin : In "SPY"%string (magnificent7 ++ etfs)) by (vm_compute; tauto).
  split; [exact Hin|].
  exact (proj2 (proj2 (proj2 (unique_stocks_sorted_set "ibm, spy"))) "SPY"%string Hin).
Defined.
